(** * epub-to-pdf: the EPUB package model and the combined HTML document

    A shallow embedding of [src/index.ts] (class [EpubToPdf]): the package
    model built by [processEpub] ([extractMetadata], [extractManifest],
    [extractSpine], [processCssFiles]) and the single HTML document built by
    [createCombinedHtml] ([processFontPaths], the spine loop, the page-break
    rule and the final image sweep).

    What the source delegates to libraries is kept outside the embedding:
    - [fs-extra]: a file system is a finite map from paths to entries, threaded
      through a state-and-exception monad; paths are compared as strings, and
      what lies below a directory are the entries whose path continues the
      path of the directory after a separator;
    - [path]: the POSIX functions [basename], [dirname], [normalize], [join];
    - [cheerio]: the parser ([cheerio.load]) and the serialiser ([$.html()],
      [.html()]) are parameters; the tree they exchange and the traversals the
      source runs on it ([$('img').each], [$('body')]) are defined here;
    - [xml2js]: the two XML parsers are parameters returning typed views;
    - JavaScript numbers: only their [ToString] is used, a parameter as well.

    Strings are sequences of 8-bit characters where JavaScript has UTF-16 code
    units; no function below depends on the size of the alphabet. *)

From stdpp Require Import gmap strings list.
From Stdlib Require Import Ascii DecimalString.

(** ** JavaScript string primitives *)

Module Js.

(** [String.prototype.startsWith]. *)
Definition startsWith (s p : string) : bool := String.prefix p s.

(** The string without its first [n] characters ([s.slice(n)]). *)
Fixpoint slice (n : nat) (s : string) : string :=
  match n, s with
  | O, _ => s
  | S _, EmptyString => EmptyString
  | S n', String _ s' => slice n' s'
  end.

(** [String.prototype.endsWith]. *)
Definition endsWith (s p : string) : bool :=
  String.prefix (String.rev p) (String.rev s).

(** [String.prototype.includes]: [p] occurs at some position of [s]. *)
Fixpoint includes (s p : string) : bool :=
  String.prefix p s ||
  match s with
  | EmptyString => false
  | String _ s' => includes s' p
  end.

(** [String.prototype.replace] with a string pattern: the first occurrence of
    [pat] is replaced, the text around it is kept.  (The replacement texts of
    the source hold no [$], so no replacement pattern is expanded.) *)
Fixpoint replace (s pat rep : string) : string :=
  if String.prefix pat s then rep +:+ slice (String.length pat) s
  else match s with
       | EmptyString => EmptyString
       | String c s' => String c (replace s' pat rep)
       end.

(** Truthiness of a string: [if (s)] holds for every string but the empty one. *)
Definition truthy (s : string) : bool :=
  match s with EmptyString => false | String _ _ => true end.

(** Concatenation of a list of strings ([Array.prototype.join('')]). *)
Definition concat (l : list string) : string := foldr String.append EmptyString l.

End Js.

(** ** Node's [path] module (POSIX flavour) *)

Module Path.

Definition isSlash (c : ascii) : bool := bool_decide (c = "/"%char).

Fixpoint dropSlashes (s : string) : string :=
  match s with
  | String c s' => if isSlash c then dropSlashes s' else s
  | EmptyString => EmptyString
  end.

Fixpoint untilSlash (s : string) : string :=
  match s with
  | String c s' => if isSlash c then EmptyString else String c (untilSlash s')
  | EmptyString => EmptyString
  end.

Fixpoint afterSlash (s : string) : string :=
  match s with
  | String c s' => if isSlash c then s else afterSlash s'
  | EmptyString => EmptyString
  end.

(** [path.basename(p)]: scanning from the end, trailing separators are
    ignored and the name runs back to the separator before it. *)
Definition basename (p : string) : string :=
  String.rev (untilSlash (dropSlashes (String.rev p))).

(** [path.dirname(p)]: the scan from the end stops before the first
    character; what precedes the separator found is returned as it is. *)
Definition dirname (p : string) : string :=
  match p with
  | EmptyString => "."
  | String c0 rest =>
      match afterSlash (dropSlashes (String.rev rest)) with
      | EmptyString => if isSlash c0 then "/" else "."
      | String _ x =>
          if isSlash c0 && negb (Js.truthy x) then "//"
          else String c0 (String.rev x)
      end
  end.

(** The segments of a path between separators; [cur] is the segment being
    read, reversed. *)
Fixpoint segments (cur : string) (s : string) : list string :=
  match s with
  | EmptyString => [String.rev cur]
  | String c s' =>
      if isSlash c then String.rev cur :: segments EmptyString s'
      else segments (String c cur) s'
  end.

(** [normalizeString]: [res] is the stack of segments kept so far, the last
    one first. *)
Fixpoint normalizeSegments (allowAboveRoot : bool) (res : list string)
    (segs : list string) : list string :=
  match segs with
  | [] => reverse res
  | seg :: segs' =>
      if bool_decide (seg = "") || bool_decide (seg = ".") then
        normalizeSegments allowAboveRoot res segs'
      else if bool_decide (seg = "..") then
        match res with
        | top :: res' =>
            if bool_decide (top = "..") then
              normalizeSegments allowAboveRoot
                (if allowAboveRoot then ".." :: res else res) segs'
            else normalizeSegments allowAboveRoot res' segs'
        | [] =>
            normalizeSegments allowAboveRoot
              (if allowAboveRoot then [".."] else []) segs'
        end
      else normalizeSegments allowAboveRoot (seg :: res) segs'
  end.

Fixpoint joinSegments (l : list string) : string :=
  match l with
  | [] => ""
  | [x] => x
  | x :: l' => x +:+ "/" +:+ joinSegments l'
  end.

(** [path.normalize(p)]. *)
Definition normalize (p : string) : string :=
  match p with
  | EmptyString => "."
  | String c0 _ =>
      let isAbsolute := isSlash c0 in
      let trailingSeparator := Js.endsWith p "/" in
      let body := joinSegments (normalizeSegments (negb isAbsolute) [] (segments "" p)) in
      match body with
      | EmptyString =>
          if isAbsolute then "/" else if trailingSeparator then "./" else "."
      | String _ _ =>
          let body' := if trailingSeparator then body +:+ "/" else body in
          if isAbsolute then "/" +:+ body' else body'
      end
  end.

(** [path.join(...args)]: the non-empty arguments are put together with a
    separator and the result is normalised. *)
Definition join (args : list string) : string :=
  match filter (fun a => Js.truthy a = true) args with
  | [] => "."
  | parts => normalize (joinSegments parts)
  end.

End Path.

(** ** Exceptions, the file system and the monad of the asynchronous code *)

(** What an [await] can throw: an [Error] built by the source or by a library
    with its message, a [TypeError] of the JavaScript engine with its message,
    or a system error of the file-system layer with its code and the path it
    is about. *)
Inductive exn :=
| Error (message : string)
| TypeError (message : string)
| SystemError (code : string) (path : string).

Inductive Result (A : Type) :=
| Ok (a : A)
| Throw (e : exn).
Arguments Ok {A} a.
Arguments Throw {A} e.

(** A path holds a regular file with its text, or a directory. *)
Inductive entry :=
| File (content : string)
| Dir.

#[global] Instance entry_eq_dec : EqDecision entry.
Proof. solve_decision. Defined.

Abbreviation FileSystem := (gmap string entry).

(** A computation that reads and writes the file system and may throw. *)
Definition M (A : Type) : Type := FileSystem -> Result (A * FileSystem).

Definition ret {A} (a : A) : M A := fun fs => Ok (a, fs).

Definition bind {A B} (m : M A) (k : A -> M B) : M B :=
  fun fs =>
    match m fs with
    | Ok (a, fs') => k a fs'
    | Throw e => Throw e
    end.

Definition throw {A} (e : exn) : M A := fun _ => Throw e.

(** A synchronous step that may throw, run inside the monad. *)
Definition liftResult {A} (r : Result A) : M A :=
  fun fs => match r with Ok a => Ok (a, fs) | Throw e => Throw e end.

#[global] Instance M_ret : MRet M := @ret.
#[global] Instance M_bind : MBind M := fun A B k m => bind m k.

(** [for (const x of l) { await body(x) }]. *)
Fixpoint forEach {A} (body : A -> M unit) (l : list A) : M unit :=
  match l with
  | [] => ret tt
  | x :: l' => _ ← body x; forEach body l'
  end.

(** A loop that carries an accumulator ([let acc; for (...) { acc = ... }]). *)
Fixpoint foldLoop {A S} (body : S -> A -> M S) (acc : S) (l : list A) : M S :=
  match l with
  | [] => ret acc
  | x :: l' => acc' ← body acc x; foldLoop body acc' l'
  end.

Module Fs.

(** [fs.existsSync(p)]: true for files and directories alike. *)
Definition existsSync (p : string) : M bool :=
  fun fs => Ok (bool_decide (is_Some (fs !! p)), fs).

(** [fs.readFile(p, 'utf-8')]. *)
Definition readFile (p : string) : M string :=
  fun fs =>
    match fs !! p with
    | Some (File c) => Ok (c, fs)
    | Some Dir => Throw (SystemError "EISDIR" p)
    | None => Throw (SystemError "ENOENT" p)
    end.

(** [fs.mkdir(p)]. *)
Definition mkdir (p : string) : M unit :=
  fun fs =>
    match fs !! p with
    | Some _ => Throw (SystemError "EEXIST" p)
    | None => Ok (tt, <[p := Dir]> fs)
    end.

(** [q] lies below the directory [dir]: its path is the path of [dir], a
    separator and more. *)
Definition below (dir q : string) : bool := String.prefix (dir +:+ "/") q.

(** The entries below a directory, each with its path relative to the
    directory (the separator in front included). *)
Definition subtree (dir : string) (fs : FileSystem) : list (string * entry) :=
  omap (fun item : string * entry =>
          if below dir item.1
          then Some (Js.slice (String.length dir) item.1, item.2)
          else None)
    (map_to_list fs).

(** [checkPaths] of fs-extra on an entry and what its destination holds: a
    file does not replace a directory, nor a directory a file. *)
Definition overwriteError (src dest : string) (e : entry) (held : option entry)
    : option exn :=
  match e, held with
  | File _, Some Dir =>
      Some (Error ("Cannot overwrite directory '" +:+ dest +:+
                   "' with non-directory '" +:+ src +:+ "'."))
  | Dir, Some (File _) =>
      Some (Error ("Cannot overwrite non-directory '" +:+ dest +:+
                   "' with directory '" +:+ src +:+ "'."))
  | _, _ => None
  end.

(** The check of the entries below a directory that is copied; the first
    error in the order of the listing is returned (the library copies the
    entries of a directory concurrently, so that with several such entries
    the one reported is not determined). *)
Fixpoint subtreeError (src dest : string) (fs : FileSystem)
    (items : list (string * entry)) : option exn :=
  match items with
  | [] => None
  | (rest, e) :: items' =>
      match overwriteError (src +:+ rest) (dest +:+ rest) e (fs !! (dest +:+ rest)) with
      | Some err => Some err
      | None => subtreeError src dest fs items'
      end
  end.

(** The entries of a copied directory put below the destination. *)
Definition putSubtree (dest : string) (items : list (string * entry))
    (fs : FileSystem) : FileSystem :=
  foldr (fun item acc => <[dest +:+ item.1 := item.2]> acc) fs items.

(** [fs.copy(src, dest)] of fs-extra, overwriting by default: the source must
    exist, a path is not copied onto itself, a file does not replace a
    directory nor a directory a file, and a directory is not copied into
    itself.  A file is copied to the destination; a directory is created at
    the destination when there is none and every entry below the source is
    copied to the same relative path below the destination, under the same
    checks.  The entries are those the source held when the copy began.  The
    parent directory of the destination, which the library creates when it
    is missing, is not tracked: in the calls of the converter it is the
    [assets] directory just created or a directory above it. *)
Definition copy (src dest : string) : M unit :=
  fun fs =>
    match fs !! src with
    | None => Throw (SystemError "ENOENT" src)
    | Some e =>
        if bool_decide (src = dest) then
          Throw (Error "Source and destination must not be the same.")
        else
          match overwriteError src dest e (fs !! dest) with
          | Some err => Throw err
          | None =>
              match e with
              | File _ => Ok (tt, <[dest := e]> fs)
              | Dir =>
                  if below src dest then
                    Throw (Error ("Cannot copy '" +:+ src +:+
                                  "' to a subdirectory of itself, '" +:+ dest +:+ "'."))
                  else
                    match subtreeError src dest fs (subtree src fs) with
                    | Some err => Throw err
                    | None =>
                        Ok (tt, putSubtree dest (subtree src fs) (<[dest := Dir]> fs))
                    end
              end
          end
    end.

(** [fs.writeFile(p, text)]. *)
Definition writeFile (p text : string) : M unit :=
  fun fs =>
    match fs !! p with
    | Some Dir => Throw (SystemError "EISDIR" p)
    | _ => Ok (tt, <[p := File text]> fs)
    end.

(** [tmpPromise({ unsafeCleanup: true })] of tmp-promise: a directory that
    did not exist is created and its path returned.  The name is the
    library's choice; it is an input here, and a name already taken is never
    handed out. *)
Definition tmpDir (name : string) : M string :=
  fun fs =>
    match fs !! name with
    | Some _ => Throw (Error "Could not get a unique tmp filename")
    | None => Ok (name, <[name := Dir]> fs)
    end.

End Fs.

(** ** The data model (the interfaces at the end of [index.ts]) *)

Record EpubMetadata := {
  title : string;
  creator : string;
  language : string
}.

Record EpubManifestItem := {
  id : string;
  href : string;
  mediaType : string;
  properties : string;
  path : string
}.

Record EpubSpineItem := {
  idref : string;
  linear : bool;
  spine_href : string;
  spine_path : string
}.

Record EpubData := {
  metadata : EpubMetadata;
  spine : list EpubSpineItem;
  manifest : list EpubManifestItem;
  cssContent : string;
  fontFiles : list EpubManifestItem;
  basePath : string
}.

(** The package document as xml2js hands it over ([opfData.package]), with
    its [metadata], [manifest] and [spine] elements: the attributes ([$]) of
    each [item] and [itemref], and the first [dc:] element of each kind when
    there is one.  xml2js gives an element the property [item] (or
    [itemref]) only when it has such a child: the empty list stands for a
    [manifest] (or [spine]) without that property. *)
Record OpfItem := {
  item_id : string;
  item_href : string;
  item_media_type : string;
  item_properties : option string
}.

Record OpfItemref := {
  itemref_idref : string;
  itemref_linear : option string
}.

Record OpfData := {
  dc_title : option string;
  dc_creator : option string;
  dc_language : option string;
  manifest_item : list OpfItem;
  spine_itemref : list OpfItemref
}.

(** ** The document tree of cheerio *)

#[local] Set Warnings "-register-all".
Inductive node :=
| Text (data : string)
| Comment (data : string)
| Directive (data : string)
| Element (name : string) (attribs : list (string * string)) (children : list node).

Module Dom.

(** [el.attribs[name]]. *)
Fixpoint getAttr (name : string) (attribs : list (string * string)) : option string :=
  match attribs with
  | [] => None
  | (k, v) :: rest => if bool_decide (k = name) then Some v else getAttr name rest
  end.

(** [el.attribs[name] = value]: an attribute in place keeps its position, a
    new one comes last. *)
Fixpoint setAttr (name value : string) (attribs : list (string * string))
    : list (string * string) :=
  match attribs with
  | [] => [(name, value)]
  | (k, v) :: rest =>
      if bool_decide (k = name) then (k, value) :: rest
      else (k, v) :: setAttr name value rest
  end.

(** [$(tag).each((_, el) => ...)] where the callback only rewrites the
    attributes of [el]: every element of that name, at any depth. *)
Fixpoint eachElement (tag : string)
    (f : list (string * string) -> list (string * string)) (n : node) : node :=
  match n with
  | Element name attribs children =>
      Element name (if bool_decide (name = tag) then f attribs else attribs)
        (map (eachElement tag f) children)
  | _ => n
  end.

(** The elements of a name in document order, each with its attributes. *)
Fixpoint select (tag : string) (n : node) : list (list (string * string)) :=
  match n with
  | Element name attribs children =>
      (if bool_decide (name = tag) then [attribs] else []) ++
      flat_map (select tag) children
  | _ => []
  end.

(** The children of the first element of a name in document order, the
    node itself first ([$(tag)[0].children] below one node). *)
Fixpoint firstChildren (tag : string) (n : node) : option (list node) :=
  match n with
  | Element name attribs children =>
      if bool_decide (name = tag) then Some children
      else head (omap (firstChildren tag) children)
  | _ => None
  end.

(** [$(tag)[0].children] in a document. *)
Definition firstOf (tag : string) (doc : list node) : option (list node) :=
  head (omap (firstChildren tag) doc).

End Dom.

(** ** Options ([Required<EpubToPdfOptions>]) *)

Record Options (Number : Type) := {
  format : string;
  margin : Number;
  includePageNumbers : bool;
  customCss : string;
  preserveOriginalCss : bool
}.
Arguments format {Number} _.
Arguments margin {Number} _.
Arguments includePageNumbers {Number} _.
Arguments customCss {Number} _.
Arguments preserveOriginalCss {Number} _.

(** ** Text fragments of the source *)

(** The double quote, which a string literal cannot hold. *)
Definition dq : string := String "034"%char EmptyString.

(** ['\n']. *)
Definition nl : string := String "010"%char EmptyString.

(** The marker appended between content documents (line 414). *)
Definition pageBreakDiv : string :=
  "<div class=" +:+ dq +:+ "page-break" +:+ dq +:+ "></div>".

(** The replacement text of line 424: the page-break rule and the closing
    tag it is put in front of. *)
Definition pageBreakCss : string := "
  .page-break {
    page-break-after: always;
  }
</style>".

(** The template literal of lines 383-392, filled with the title and with the
    stylesheet as [processFontPaths] returned it. *)
Definition htmlShell (title css : string) : string :=
  "<!DOCTYPE html>
<html>
<head>
  <meta charset=" +:+ dq +:+ "UTF-8" +:+ dq +:+ ">
  <title>" +:+ title +:+ "</title>
  <style>
    " +:+ css +:+ "
  </style>
</head>
<body>".

(** The template literal of lines 280-288, [m] being the margin as text. *)
Definition pdfCss (m : string) : string :=
  "
      @page {
        margin: " +:+ m +:+ "in;
      }
      body {
        margin: 0;
        padding: 0;
      }
    ".

(** ** The regular expression of [processFontPaths]

    [/url\([Q]?([^Q)]+)[Q]?\)/g], where [Q] stands for the two characters of
    the source's classes, the single and the double quote: the text [url(],
    an optional quote, the longest non-empty run of characters other than the
    two quotes and the closing parenthesis (the captured path), an optional
    quote, and the closing parenthesis.  The run is greedy and no shorter run can be
    followed by a quote or a parenthesis, so the match at a position is
    unique. *)

Module UrlRegex.

Definition isQuote (c : ascii) : bool :=
  bool_decide (c = "'"%char) || bool_decide (c = "034"%char).

(** The class of the captured path: neither quote nor closing parenthesis. *)
Definition inClass (c : ascii) : bool :=
  negb (isQuote c || bool_decide (c = ")"%char)).

(** The optional quote. *)
Definition skipQuote (s : string) : string :=
  match s with
  | String c s' => if isQuote c then s' else s
  | EmptyString => s
  end.

(** The greedy run of characters of the class, and what follows it. *)
Fixpoint spanClass (s : string) : string * string :=
  match s with
  | String c s' =>
      if inClass c then let '(run, rest) := spanClass s' in (String c run, rest)
      else (EmptyString, s)
  | EmptyString => (EmptyString, EmptyString)
  end.

(** The match that starts at the head of [s], if there is one: the captured
    path and the text after the match. *)
Definition matchAt (s : string) : option (string * string) :=
  if String.prefix "url(" s then
    let '(run, rest) := spanClass (skipQuote (Js.slice 4 s)) in
    if Js.truthy run then
      match skipQuote rest with
      | String c rest' =>
          if bool_decide (c = ")"%char) then Some (run, rest') else None
      | EmptyString => None
      end
    else None
  else None.

(** [s.replace(re, f)] for the global expression: matches are sought from
    left to right, each one is replaced by [f] of its captured path, and the
    search goes on after it.  [fuel] bounds the number of steps; the length
    of [s] plus one is enough. *)
Fixpoint replaceAll (fuel : nat) (f : string -> string) (s : string) : string :=
  match fuel with
  | O => s
  | S fuel' =>
      match matchAt s with
      | Some (run, rest) => f run +:+ replaceAll fuel' f rest
      | None =>
          match s with
          | EmptyString => EmptyString
          | String c s' => String c (replaceAll fuel' f s')
          end
      end
  end.

End UrlRegex.

(** ** The converter *)

(** [extractMetadata] (lines 197-205). *)
Definition extractMetadata (opfData : OpfData) : EpubMetadata :=
  {| title := default "Untitled" (dc_title opfData);
     creator := default "Unknown Author" (dc_creator opfData);
     language := default "en" (dc_language opfData) |}.

(** The message of the [TypeError] of [undefined.map(...)]. *)
Definition mapOfUndefined : string :=
  "Cannot read properties of undefined (reading 'map')".

(** The callback of [extractManifest] (lines 215-228). *)
Definition manifestEntry (opfDir : string) (item : OpfItem) : EpubManifestItem :=
  {| id := item_id item;
     href := item_href item;
     mediaType := item_media_type item;
     properties := default "" (item_properties item);
     path := Path.join [opfDir; item_href item] |}.

(** [extractManifest] (lines 212-229): [manifestNode.item] is undefined for a
    manifest without an item, and the call of [map] on it throws. *)
Definition extractManifest (opfData : OpfData) (opfDir : string)
    : Result (list EpubManifestItem) :=
  match manifest_item opfData with
  | [] => Throw (TypeError mapOfUndefined)
  | items => Ok (map (manifestEntry opfDir) items)
  end.

(** [Array.prototype.map] with a callback that may throw: the first
    exception ends the traversal. *)
Fixpoint mapResult {A B} (f : A -> Result B) (l : list A) : Result (list B) :=
  match l with
  | [] => Ok []
  | x :: l' =>
      match f x with
      | Throw e => Throw e
      | Ok y =>
          match mapResult f l' with
          | Throw e => Throw e
          | Ok ys => Ok (y :: ys)
          end
      end
  end.

(** [manifest.find(item => item.id === idref)]. *)
Fixpoint findById (idref : string) (manifest : list EpubManifestItem)
    : option EpubManifestItem :=
  match manifest with
  | [] => None
  | item :: rest =>
      if bool_decide (id item = idref) then Some item else findById idref rest
  end.

(** The callback of [extractSpine] (lines 239-255). *)
Definition resolveItemref (manifest : list EpubManifestItem)
    (itemref : OpfItemref) : Result EpubSpineItem :=
  let idref := itemref_idref itemref in
  let linear := negb (bool_decide (itemref_linear itemref = Some "no")) in
  match findById idref manifest with
  | None =>
      Throw (Error ("Invalid EPUB: spine item " +:+ idref +:+
                    " not found in manifest"))
  | Some manifestItem =>
      Ok {| idref := idref;
            linear := linear;
            spine_href := href manifestItem;
            spine_path := path manifestItem |}
  end.

(** [extractSpine] (lines 236-256): [spineNode.itemref] is undefined for a
    spine without a reference, and the call of [map] on it throws. *)
Definition extractSpine (opfData : OpfData) (manifest : list EpubManifestItem)
    : Result (list EpubSpineItem) :=
  match spine_itemref opfData with
  | [] => Throw (TypeError mapOfUndefined)
  | itemrefs => mapResult (resolveItemref manifest) itemrefs
  end.

(** [processFontPaths] (lines 457-463). *)
Definition processFontPaths (css fontDir : string) : string :=
  UrlRegex.replaceAll (S (String.length css))
    (fun fontPath => "url('" +:+ fontDir +:+ Path.basename fontPath +:+ "')")
    css.

(** The callback of the first [$('img').each] (lines 401-407). *)
Definition fixImagePath (attribs : list (string * string))
    : list (string * string) :=
  match Dom.getAttr "src" attribs with
  | Some src =>
      if Js.truthy src
      then Dom.setAttr "src" ("assets/" +:+ Path.basename src) attribs
      else attribs
  | None => attribs
  end.

(** The callback of the second [$('img').each] (lines 432-438). *)
Definition sweepImagePath (attribs : list (string * string))
    : list (string * string) :=
  match Dom.getAttr "src" attribs with
  | Some src =>
      if Js.truthy src && negb (Js.startsWith src "assets/")
      then Dom.setAttr "src" ("assets/" +:+ Path.basename src) attribs
      else attribs
  | None => attribs
  end.

(** ** The libraries behind the converter *)

(** JavaScript numbers: the source only turns the margin into text
    ([ToString], as a template literal applies it). *)
Class JsNumber := {
  Number : Type;
  numberToString : Number -> string
}.

(** cheerio: [cheerio.load(text)] gives the children of the root of the
    parsed document; [cheerio_html] is the serialiser behind [$.html()] and
    [$(sel).html()]. *)
Class Cheerio := {
  cheerio_load : string -> list node;
  cheerio_html : list node -> string
}.

(** xml2js: [parseStringPromise] on [container.xml] followed by the access to
    [container.rootfiles[0].rootfile[0].$['full-path']], and
    [parseStringPromise] on the package document. *)
Class Xml2js := {
  parseContainerXml : string -> Result string;
  parseOpfXml : string -> Result OpfData
}.

Section Converter.

Context {jsNumber : JsNumber} {cheerio : Cheerio} {xml2js : Xml2js}.

Variable options : Options Number.

(** One turn of the loop of [processCssFiles] (lines 266-271). *)
Definition appendCssFile (combinedCss : string) (cssFile : EpubManifestItem)
    : M string :=
  found ← Fs.existsSync (path cssFile);
  if found : bool then
    css ← Fs.readFile (path cssFile);
    mret (combinedCss +:+ css +:+ nl)
  else mret combinedCss.

(** [processCssFiles] (lines 262-291). *)
Definition processCssFiles (cssFiles : list EpubManifestItem) : M string :=
  combinedCss ←
    (if preserveOriginalCss options
     then foldLoop appendCssFile "" cssFiles
     else mret "");
  let combinedCss :=
    if Js.truthy (customCss options)
    then combinedCss +:+ customCss options
    else combinedCss in
  mret (combinedCss +:+ pdfCss (numberToString (margin options))).

(** Lines 162-190 of [processEpub]: the package model from the parsed
    package document and the directory it lies in. *)
Definition buildEpubData (opfData : OpfData) (opfDir : string) : M EpubData :=
  let metadata := extractMetadata opfData in
  manifest ← liftResult (extractManifest opfData opfDir);
  spine ← liftResult (extractSpine opfData manifest);
  let cssFiles :=
    filter (fun item => Js.includes (mediaType item) "css") manifest in
  cssContent ← processCssFiles cssFiles;
  let fontFiles :=
    filter (fun item =>
              Js.includes (mediaType item) "font" ||
              Js.includes (mediaType item) "opentype" ||
              Js.endsWith (href item) ".ttf" ||
              Js.endsWith (href item) ".otf") manifest in
  mret {| metadata := metadata;
          spine := spine;
          manifest := manifest;
          cssContent := cssContent;
          fontFiles := fontFiles;
          basePath := opfDir |}.

(** [processEpub] (lines 138-191). *)
Definition processEpub (extractPath : string) : M EpubData :=
  let containerPath := Path.join [extractPath; "META-INF"; "container.xml"] in
  found ← Fs.existsSync containerPath;
  if negb found then throw (Error "Invalid EPUB: container.xml not found")
  else
    containerXml ← Fs.readFile containerPath;
    rootfilePath ← liftResult (parseContainerXml containerXml);
    let opfPath := Path.join [extractPath; rootfilePath] in
    found ← Fs.existsSync opfPath;
    if negb found
    then throw (Error ("Invalid EPUB: OPF file not found at " +:+ rootfilePath))
    else
      let opfDir := Path.dirname opfPath in
      opfXml ← Fs.readFile opfPath;
      opfData ← liftResult (parseOpfXml opfXml);
      buildEpubData opfData opfDir.

(** Lines 398-410: the content document is parsed, its image paths are
    fixed, and the inner HTML of its [body] is taken ([''] when there is no
    [body] or the inner HTML is empty). *)
Definition bodyContent (content : string) : string :=
  let doc := map (Dom.eachElement "img" fixImagePath) (cheerio_load content) in
  match Dom.firstOf "body" doc with
  | Some children => cheerio_html children
  | None => ""
  end.

(** One turn of the spine loop (lines 395-419). *)
Definition appendSpineItem (html : string) (spineItem : EpubSpineItem)
    : M string :=
  found ← (if linear spineItem
           then Fs.existsSync (spine_path spineItem)
           else mret false);
  if found : bool then
    content ← Fs.readFile (spine_path spineItem);
    let body := bodyContent content in
    let html :=
      if Js.includes html "</section>" then html +:+ pageBreakDiv else html in
    mret (html +:+ body)
  else mret html.

(** Lines 383-428: the text handed to the final [cheerio.load]. *)
Definition combinedSource (epubData : EpubData) : M string :=
  let html :=
    htmlShell (title (metadata epubData))
      (processFontPaths (cssContent epubData) "assets/") in
  html ← foldLoop appendSpineItem html (spine epubData);
  let html := html +:+ "</body></html>" in
  mret (Js.replace html "</style>" pageBreakCss).

(** Lines 383-438: the combined text parsed again and swept. *)
Definition combinedDocument (epubData : EpubData) : M (list node) :=
  html ← combinedSource epubData;
  mret (map (Dom.eachElement "img" sweepImagePath) (cheerio_load html)).

(** The copies of lines 368-380. *)
Definition copyAsset (assetsDir : string) (file : EpubManifestItem) : M unit :=
  Fs.copy (path file) (Path.join [assetsDir; Path.basename (href file)]).

(** Lines 361-380 of [createCombinedHtml]: the temporary directory, its
    [assets] directory and the copies of the fonts and images.  [tmpName] is
    the directory tmp-promise hands out. *)
Definition prepareAssets (epubData : EpubData) (tmpName : string) : M string :=
  tempDir ← Fs.tmpDir tmpName;
  let assetsDir := Path.join [tempDir; "assets"] in
  _ ← Fs.mkdir assetsDir;
  _ ← forEach (copyAsset assetsDir) (fontFiles epubData);
  let imageFiles :=
    filter (fun item => Js.startsWith (mediaType item) "image/")
      (manifest epubData) in
  _ ← forEach (copyAsset assetsDir) imageFiles;
  mret tempDir.

(** [createCombinedHtml] (lines 360-450).  The path of the file written is
    returned. *)
Definition createCombinedHtml (epubData : EpubData) (tmpName : string)
    : M string :=
  tempDir ← prepareAssets epubData tmpName;
  doc ← combinedDocument epubData;
  let html := cheerio_html doc in
  let htmlPath := Path.join [tempDir; "combined.html"] in
  _ ← Fs.writeFile htmlPath html;
  mret htmlPath.

(** [convert] (lines 80-98) from the extracted tree to the combined HTML
    file: [processEpub], then the first step of [generatePdf].  Extraction
    comes before and the rendering by Puppeteer after. *)
Definition convert (extractPath tmpName : string) : M string :=
  epubData ← processEpub extractPath;
  createCombinedHtml epubData tmpName.

End Converter.


(** ** A small package to run the converter on *)

Module Demo.

(** Integers as numbers: [ToString] of an integer is its decimal text. *)
Definition number : JsNumber :=
  {| Number := Z; numberToString := fun z => NilZero.string_of_int (Z.to_int z) |}.

Definition voidElement (name : string) : bool :=
  bool_decide (name ∈ ["img"; "meta"; "br"; "hr"; "link"; "input"]).

Definition serializeAttr (a : string * string) : string :=
  " " +:+ a.1 +:+ "=" +:+ dq +:+ a.2 +:+ dq.

(** The serialiser of cheerio on trees whose texts and attribute values
    need no escaping. *)
Fixpoint serializeNode (n : node) : string :=
  match n with
  | Text data => data
  | Comment data => "<!--" +:+ data +:+ "-->"
  | Directive data => "<" +:+ data +:+ ">"
  | Element name attribs children =>
      "<" +:+ name +:+ Js.concat (map serializeAttr attribs) +:+ ">" +:+
      (if voidElement name then ""
       else Js.concat (map serializeNode children) +:+ "</" +:+ name +:+ ">")
  end.

Definition serialize (l : list node) : string := Js.concat (map serializeNode l).

(** A parser given by the trees of the texts it is run on. *)
Fixpoint lookupText (table : list (string * list node)) (text : string)
    : list node :=
  match table with
  | [] => []
  | (k, doc) :: rest => if bool_decide (k = text) then doc else lookupText rest text
  end.

Definition page (body : list node) : list node :=
  [Element "html" [] [Element "head" [] []; Element "body" [] body]].

Definition ch1_body : list node :=
  [Element "h1" [] [Text "One"]; Element "img" [("src", "../images/cover.png")] []].
Definition notes_body : list node := [Element "p" [] [Text "Notes"]].
Definition ch2_body : list node :=
  [Element "h1" [] [Text "Two"]; Element "img" [("src", "")] []].

Definition ch1_text : string := serialize (page ch1_body).
Definition notes_text : string := serialize (page notes_body).
Definition ch2_text : string := serialize (page ch2_body).

(** The package document: three content documents, the second one outside
    the reading order, an image and a font; no stylesheet. *)
Definition opf : OpfData :=
  {| dc_title := Some "Demo";
     dc_creator := None;
     dc_language := None;
     manifest_item :=
       [ {| item_id := "ch1"; item_href := "ch1.xhtml";
            item_media_type := "application/xhtml+xml"; item_properties := None |};
         {| item_id := "notes"; item_href := "notes.xhtml";
            item_media_type := "application/xhtml+xml"; item_properties := None |};
         {| item_id := "ch2"; item_href := "ch2.xhtml";
            item_media_type := "application/xhtml+xml"; item_properties := None |};
         {| item_id := "cover"; item_href := "images/cover.png";
            item_media_type := "image/png"; item_properties := None |};
         {| item_id := "font"; item_href := "fonts/a.ttf";
            item_media_type := "application/x-font-ttf"; item_properties := None |} ];
     spine_itemref :=
       [ {| itemref_idref := "ch1"; itemref_linear := None |};
         {| itemref_idref := "notes"; itemref_linear := Some "no" |};
         {| itemref_idref := "ch2"; itemref_linear := Some "yes" |} ] |}.




Definition xml (o : OpfData) : Xml2js :=
  {| parseContainerXml := fun _ => Ok "OEBPS/content.opf";
     parseOpfXml := fun _ => Ok o |}.

(** The extracted tree. *)
Definition tree : FileSystem :=
  list_to_map
    [ ("/book/META-INF/container.xml", File "<container/>");
      ("/book/OEBPS/content.opf", File "<package/>");
      ("/book/OEBPS/ch1.xhtml", File ch1_text);
      ("/book/OEBPS/notes.xhtml", File notes_text);
      ("/book/OEBPS/ch2.xhtml", File ch2_text);
      ("/book/OEBPS/images/cover.png", File "PNG");
      ("/book/OEBPS/fonts/a.ttf", File "TTF") ].

Definition options (margin : Z) (css : string) (preserve : bool) : Options Z :=
  {| format := "A4"; margin := margin; includePageNumbers := true;
     customCss := css; preserveOriginalCss := preserve |}.

(** The package model [processEpub] builds from [opf] in [tree] with a margin
    of 1 and no custom style. *)
Definition data : EpubData :=
  {| metadata := {| title := "Demo"; creator := "Unknown Author"; language := "en" |};
     spine :=
       [ {| idref := "ch1"; linear := true; spine_href := "ch1.xhtml";
            spine_path := "/book/OEBPS/ch1.xhtml" |};
         {| idref := "notes"; linear := false; spine_href := "notes.xhtml";
            spine_path := "/book/OEBPS/notes.xhtml" |};
         {| idref := "ch2"; linear := true; spine_href := "ch2.xhtml";
            spine_path := "/book/OEBPS/ch2.xhtml" |} ];
     manifest := map (manifestEntry "/book/OEBPS") (manifest_item opf);
     cssContent := pdfCss "1";
     fontFiles :=
       [ {| id := "font"; href := "fonts/a.ttf";
            mediaType := "application/x-font-ttf"; properties := "";
            path := "/book/OEBPS/fonts/a.ttf" |} ];
     basePath := "/book/OEBPS" |}.

(** The same model for a book whose title holds a closing [section] tag. *)
Definition dataTitled : EpubData :=
  {| metadata :=
       {| title := "On </section> tags"; creator := "Unknown Author"; language := "en" |};
     spine := spine data;
     manifest := manifest data;
     cssContent := cssContent data;
     fontFiles := fontFiles data;
     basePath := basePath data |}.

(** The extracted tree of a package whose second chapter is declared at a
    path that is a directory. *)
Definition treeWithDirectory : FileSystem :=
  <["/book/OEBPS/ch2.xhtml" := Dir]> tree.

(** The text [createCombinedHtml] hands to the final [cheerio.load] for this
    package with a margin of 1. *)
Definition combinedText : string :=
  "<!DOCTYPE html>
<html>
<head>
  <meta charset=" +:+ dq +:+ "UTF-8" +:+ dq +:+ ">
  <title>Demo</title>
  <style>
    " +:+ pdfCss "1" +:+ "
  " +:+ pageBreakCss +:+ "
</head>
<body><h1>One</h1><img src=" +:+ dq +:+ "assets/cover.png" +:+ dq +:+
  "><h1>Two</h1><img src=" +:+ dq +:+ dq +:+ "></body></html>".

(** The tree of [combinedText]. *)
Definition combinedTree : list node :=
  [ Directive "!DOCTYPE html";
    Element "html" []
      [ Element "head" []
          [ Text "
  "; Element "meta" [("charset", "UTF-8")] [];
            Text "
  "; Element "title" [] [Text "Demo"];
            Text "
  "; Element "style" []
               [Text ("
    " +:+ pdfCss "1" +:+ "
  
  .page-break {
    page-break-after: always;
  }
")];
            Text "
" ];
        Text "
";
        Element "body" []
          [ Element "h1" [] [Text "One"];
            Element "img" [("src", "assets/cover.png")] [];
            Element "h1" [] [Text "Two"];
            Element "img" [("src", "")] [] ] ] ].

(** cheerio on the four texts of this package. *)
Definition cheerio : Cheerio :=
  {| cheerio_load :=
       lookupText [ (ch1_text, page ch1_body);
                    (notes_text, page notes_body);
                    (ch2_text, page ch2_body);
                    (combinedText, combinedTree) ];
     cheerio_html := serialize |}.

(** The extracted tree of a package whose two chapters hold the same text. *)
Definition treeTwice : FileSystem :=
  <["/book/OEBPS/ch2.xhtml" := File ch1_text]> tree.

(** The text [createCombinedHtml] hands to the final [cheerio.load] for the
    package in [treeTwice], and its tree. *)
Definition combinedTextTwice : string :=
  "<!DOCTYPE html>
<html>
<head>
  <meta charset=" +:+ dq +:+ "UTF-8" +:+ dq +:+ ">
  <title>Demo</title>
  <style>
    " +:+ pdfCss "1" +:+ "
  " +:+ pageBreakCss +:+ "
</head>
<body><h1>One</h1><img src=" +:+ dq +:+ "assets/cover.png" +:+ dq +:+
  "><h1>One</h1><img src=" +:+ dq +:+ "assets/cover.png" +:+ dq +:+
  "></body></html>".

Definition combinedTreeTwice : list node :=
  [ Directive "!DOCTYPE html";
    Element "html" []
      [ Element "head" []
          [ Text "
  "; Element "meta" [("charset", "UTF-8")] [];
            Text "
  "; Element "title" [] [Text "Demo"];
            Text "
  "; Element "style" []
               [Text ("
    " +:+ pdfCss "1" +:+ "
  
  .page-break {
    page-break-after: always;
  }
")];
            Text "
" ];
        Text "
";
        Element "body" []
          [ Element "h1" [] [Text "One"];
            Element "img" [("src", "assets/cover.png")] [];
            Element "h1" [] [Text "One"];
            Element "img" [("src", "assets/cover.png")] [] ] ] ].

(** The first chapter with a title in its head: the same [body]. *)
Definition ch1_titled_text : string :=
  serialize
    [Element "html" []
       [Element "head" [] [Element "title" [] [Text "Chapter One"]];
        Element "body" [] ch1_body]].

(** The extracted tree of a package whose font is declared at a path that is
    a directory holding a file. *)
Definition treeFontDirectory : FileSystem :=
  <["/book/OEBPS/fonts/a.ttf/regular.bin" := File "TTF"]>
    (<["/book/OEBPS/fonts/a.ttf" := Dir]> tree).

(** The extracted tree with that text as the first chapter. *)
Definition treeTitled : FileSystem :=
  <["/book/OEBPS/ch1.xhtml" := File ch1_titled_text]> tree.

(** cheerio on the texts above as well. *)
Definition cheerioMore : Cheerio :=
  {| cheerio_load :=
       lookupText [ (ch1_text, page ch1_body);
                    (notes_text, page notes_body);
                    (ch2_text, page ch2_body);
                    (combinedText, combinedTree);
                    (combinedTextTwice, combinedTreeTwice);
                    (ch1_titled_text,
                     [Element "html" []
                        [Element "head" [] [Element "title" [] [Text "Chapter One"]];
                         Element "body" [] ch1_body]]) ];
     cheerio_html := serialize |}.

(** The file system a run of [createCombinedHtml] on this package leaves. *)
Definition afterRun (tmpName : string) (fs : FileSystem) : FileSystem :=
  match createCombinedHtml (cheerio := cheerio) data tmpName fs with
  | Ok (_, fs') => fs'
  | Throw _ => fs
  end.

End Demo.

(** ** Vocabulary of the statements *)


(** The text a stylesheet contributes to [combinedCss]: its content and a
    line end when it is a file, nothing when the path does not exist. *)
Definition cssFileText (fs : FileSystem) (cssFile : EpubManifestItem) : string :=
  match fs !! path cssFile with
  | Some (File css) => css +:+ nl
  | _ => ""
  end.

(** The package document is where [processEpub] looks for it and the two
    parsers accept what they are given. *)
Definition packageParsed {xml2js : Xml2js} (fs : FileSystem) (extractPath : string)
    (opfData : OpfData) (opfDir : string) : Prop :=
  exists containerXml rootfilePath opfXml,
    fs !! Path.join [extractPath; "META-INF"; "container.xml"]
      = Some (File containerXml) /\
    parseContainerXml containerXml = Ok rootfilePath /\
    fs !! Path.join [extractPath; rootfilePath] = Some (File opfXml) /\
    parseOpfXml opfXml = Ok opfData /\
    opfDir = Path.dirname (Path.join [extractPath; rootfilePath]).

(** The spine items whose body the loop of [createCombinedHtml] appends:
    the linear ones whose path exists. *)
Definition assembledItems (fs : FileSystem) (spine : list EpubSpineItem)
    : list EpubSpineItem :=
  filter (fun item => linear item && bool_decide (is_Some (fs !! spine_path item)))
    spine.

(** The body content of a spine item, as line 410 extracts it from the file
    at its path. *)
Definition spineBody {cheerio : Cheerio} (fs : FileSystem) (item : EpubSpineItem) : string :=
  match fs !! spine_path item with
  | Some (File content) => bodyContent content
  | _ => ""
  end.

(** The body content of a content document in the words of the
    specification: the contents of its first [body] element with the image
    sources rewritten, the empty string when it has no [body] element. *)
Definition documentBody {cheerio : Cheerio} (content : string) : string :=
  match Dom.firstOf "body" (cheerio_load content) with
  | Some children => cheerio_html (map (Dom.eachElement "img" fixImagePath) children)
  | None => ""
  end.

(** The body content of the content document of a spine item. *)
Definition itemBody {cheerio : Cheerio} (fs : FileSystem) (item : EpubSpineItem)
    : string :=
  match fs !! spine_path item with
  | Some (File content) => documentBody content
  | _ => ""
  end.

(** Two file systems show the same of a spine item to the assembler: at its
    path both hold nothing, both a directory, or both a file, and the two
    files are parsed into documents whose first [body] elements hold the
    same. *)
Definition sameBody {cheerio : Cheerio} (fs1 fs2 : FileSystem)
    (item : EpubSpineItem) : Prop :=
  match fs1 !! spine_path item, fs2 !! spine_path item with
  | Some (File content1), Some (File content2) =>
      Dom.firstOf "body" (cheerio_load content1)
      = Dom.firstOf "body" (cheerio_load content2)
  | Some Dir, Some Dir => True
  | None, None => True
  | _, _ => False
  end.

(** The number of positions of [s] at which [p] occurs. *)
Fixpoint occurrences (s p : string) : nat :=
  (if String.prefix p s then 1 else 0) +
  match s with
  | EmptyString => 0
  | String _ s' => occurrences s' p
  end.

(** The attributes with the value of every [src] blanked. *)
Definition blankSources (attribs : list (string * string)) : list (string * string) :=
  map (fun a => if bool_decide (a.1 = "src") then (a.1, "") else a) attribs.

(** A node with the image sources blanked: what is left of it when the
    values of the [src] attributes of its [img] elements are not looked
    at. *)
Fixpoint withoutImageSources (n : node) : node :=
  match n with
  | Element name attribs children =>
      Element name (if bool_decide (name = "img") then blankSources attribs else attribs)
        (map withoutImageSources children)
  | _ => n
  end.

(** One turn of the spine loop when it does not throw. *)
Definition spineStep {cheerio : Cheerio} (fs : FileSystem) (html : string)
    (item : EpubSpineItem) : string :=
  if linear item && bool_decide (is_Some (fs !! spine_path item)) then
    (if Js.includes html "</section>" then html +:+ pageBreakDiv else html)
    +:+ spineBody fs item
  else html.

(** The head of the combined document up to the closing tag of its style
    element, before the page-break rule is put in. *)
Definition shellHead (title css : string) : string :=
  "<!DOCTYPE html>
<html>
<head>
  <meta charset=" +:+ dq +:+ "UTF-8" +:+ dq +:+ ">
  <title>" +:+ title +:+ "</title>
  <style>
    " +:+ css +:+ "
  </style>".

(** The head once line 424 has put the page-break rule in. *)
Definition documentHead (epubData : EpubData) : string :=
  Js.replace
    (shellHead (title (metadata epubData))
       (processFontPaths (cssContent epubData) "assets/"))
    "</style>" pageBreakCss.

(** A package model with another spine. *)
Definition setSpine (epubData : EpubData) (spine : list EpubSpineItem) : EpubData :=
  {| metadata := metadata epubData;
     spine := spine;
     manifest := manifest epubData;
     cssContent := cssContent epubData;
     fontFiles := fontFiles epubData;
     basePath := basePath epubData |}.

(** The values of the [src] attributes of the [img] elements of a document,
    in document order. *)
Definition imageSources (doc : list node) : list string :=
  omap (Dom.getAttr "src") (flat_map (Dom.select "img") doc).

(** What the first pass makes of a source path (lines 402-406). *)
Definition fixedSource (src : string) : string :=
  if Js.truthy src then "assets/" +:+ Path.basename src else src.

(** What the final sweep makes of a source path (lines 433-437). *)
Definition sweptSource (src : string) : string :=
  if Js.truthy src && negb (Js.startsWith src "assets/")
  then "assets/" +:+ Path.basename src else src.

(** The paths [createCombinedHtml] writes before it assembles the text: the
    temporary directory, its [assets] directory and the copy of every font
    and image. *)
Definition assetTargets (epubData : EpubData) (tmpName : string) : list string :=
  let assetsDir := Path.join [tmpName; "assets"] in
  tmpName :: assetsDir ::
  map (fun file => Path.join [assetsDir; Path.basename (href file)])
    (fontFiles epubData ++
     filter (fun item => Js.startsWith (mediaType item) "image/") (manifest epubData)).

(** The destinations of the copies among them: a directory copied there
    brings what lies below it. *)
Definition assetCopies (epubData : EpubData) (tmpName : string) : list string :=
  map (fun file =>
         Path.join [Path.join [tmpName; "assets"]; Path.basename (href file)])
    (fontFiles epubData ++
     filter (fun item => Js.startsWith (mediaType item) "image/") (manifest epubData)).

(** Two entries are both files or both directories. *)
Definition sameKind (e e' : entry) : Prop :=
  match e, e' with
  | File _, File _ | Dir, Dir => True
  | _, _ => False
  end.

(** Every entry of [fs] is still there in [fs'], a file as a file and a
    directory as a directory. *)
Definition kept (fs fs' : FileSystem) : Prop :=
  forall q e, fs !! q = Some e -> exists e', fs' !! q = Some e' /\ sameKind e e'.



(** A reference as the regular expression of [processFontPaths] reads it:
    the text [url(], an optional quote, the path, an optional quote, [)]. *)
Record UrlReference := {
  opening : string;
  referenced : string;
  closing : string
}.

Definition optionalQuote (q : string) : bool :=
  bool_decide (q = "") || bool_decide (q = "'") || bool_decide (q = dq).

Fixpoint allInClass (s : string) : bool :=
  match s with
  | EmptyString => true
  | String c s' => UrlRegex.inClass c && allInClass s'
  end.

(** The references the expression matches: each quote is absent or one of
    the two quote characters, and the path is not empty and holds neither a
    quote nor a closing parenthesis. *)
Definition matched (r : UrlReference) : bool :=
  optionalQuote (opening r) && optionalQuote (closing r) &&
  Js.truthy (referenced r) && allInClass (referenced r).

Definition written (r : UrlReference) : string :=
  "url(" +:+ opening r +:+ referenced r +:+ closing r +:+ ")".

Definition rewritten (fontDir : string) (r : UrlReference) : string :=
  "url('" +:+ fontDir +:+ Path.basename (referenced r) +:+ "')".

(** A stylesheet as the references it holds, each with the text before it,
    and the text after the last one. *)
Fixpoint stylesheet (show : UrlReference -> string)
    (parts : list (string * UrlReference)) (tail : string) : string :=
  match parts with
  | [] => tail
  | (text, r) :: rest => text +:+ show r +:+ stylesheet show rest tail
  end.

(** ** Tactics *)

(** Closes an equation between closed terms by evaluating both sides once,
    when the proof is checked. *)
Ltac evaluated :=
  lazymatch goal with
  | |- ?l = ?r => vm_cast_no_check (@eq_refl _ r)
  end.

(** Unfolds the monad and the two reads of the file system. *)
Ltac run :=
  unfold mbind, M_bind, bind, mret, M_ret, ret, throw, liftResult,
    Fs.existsSync, Fs.readFile.

(** * Properties *)

(** ** Strings *)

Section StringFacts.

Implicit Types s t p : string.

Lemma app_cons (c : ascii) s t : String c s +:+ t = String c (s +:+ t).
Proof. reflexivity. Qed.

Lemma app_empty_l s : "" +:+ s = s.
Proof. reflexivity. Qed.

Lemma app_empty_r s : s +:+ "" = s.
Proof. induction s as [|c s IH]; [done|]. by rewrite app_cons, IH. Qed.

Lemma app_assoc' s t u : (s +:+ t) +:+ u = s +:+ (t +:+ u).
Proof. induction s as [|c s IH]; [done|]. by rewrite !app_cons, IH. Qed.

Lemma length_app s t : String.length (s +:+ t) = String.length s + String.length t.
Proof. induction s as [|c s IH]; [done|]. rewrite app_cons. simpl. by rewrite IH. Qed.

Lemma prefix_empty s : String.prefix "" s = true.
Proof. by destruct s. Qed.

Lemma prefix_cons (c d : ascii) p s :
  String.prefix (String c p) (String d s) = bool_decide (c = d) && String.prefix p s.
Proof.
  simpl. destruct (ascii_dec c d) as [->|Hne].
  - by rewrite bool_decide_eq_true_2.
  - by rewrite bool_decide_eq_false_2.
Qed.

Lemma prefix_app p s : String.prefix p (p +:+ s) = true.
Proof.
  induction p as [|c p IH]; [apply prefix_empty|].
  rewrite app_cons, prefix_cons, IH. by rewrite bool_decide_eq_true_2.
Qed.

Lemma prefix_length p s : String.prefix p s = true -> String.length p <= String.length s.
Proof.
  revert s. induction p as [|c p IH]; intros [|d s]; simpl; try lia; try done.
  destruct (ascii_dec c d); [|done]. intros Hp. apply IH in Hp. lia.
Qed.

Lemma prefix_app_l p a b :
  String.length p <= String.length a ->
  String.prefix p (a +:+ b) = String.prefix p a.
Proof.
  revert a. induction p as [|c p IH]; intros a Hlen.
  - by rewrite !prefix_empty.
  - destruct a as [|d a]; simpl in Hlen; [lia|].
    rewrite app_cons, !prefix_cons. rewrite IH by lia. done.
Qed.

Lemma slice_app n a b :
  n <= String.length a -> Js.slice n (a +:+ b) = Js.slice n a +:+ b.
Proof.
  revert a. induction n as [|n IH]; intros a Hlen; [done|].
  destruct a as [|d a]; simpl in Hlen; [lia|].
  rewrite app_cons. simpl. apply IH. lia.
Qed.

Lemma slice_length_app p s : Js.slice (String.length p) (p +:+ s) = s.
Proof. induction p as [|c p IH]; [done|]. rewrite app_cons. simpl. done. Qed.

Lemma includes_length s p : Js.includes s p = true -> String.length p <= String.length s.
Proof.
  induction s as [|c s IH]; intros Hin.
  - destruct p; [simpl; lia|done].
  - change (String.prefix p (String c s) || Js.includes s p = true) in Hin.
    apply orb_true_iff in Hin as [Hp|Hin].
    + by apply prefix_length in Hp.
    + apply IH in Hin. simpl. lia.
Qed.

Lemma includes_unfold s p :
  Js.includes s p =
  String.prefix p s || match s with "" => false | String _ s' => Js.includes s' p end.
Proof. by destruct s. Qed.

Lemma replace_unfold s pat rep :
  Js.replace s pat rep =
  if String.prefix pat s then rep +:+ Js.slice (String.length pat) s
  else match s with
       | "" => ""
       | String c s' => String c (Js.replace s' pat rep)
       end.
Proof. by destruct s. Qed.

Lemma includes_app_mid a p b : Js.includes (a +:+ p +:+ b) p = true.
Proof.
  induction a as [|c a IH].
  - rewrite app_empty_l, includes_unfold, prefix_app. done.
  - rewrite app_cons, includes_unfold, IH. apply orb_true_r.
Qed.

(** [replace] only looks at the text up to the end of the first occurrence:
    what follows a text that holds the pattern is kept as it is. *)
Lemma replace_app a b pat rep :
  Js.includes a pat = true ->
  Js.replace (a +:+ b) pat rep = Js.replace a pat rep +:+ b.
Proof.
  induction a as [|c a IH]; intros Hin.
  - destruct pat; [|done]. rewrite app_empty_l.
    destruct b; simpl; rewrite ?app_empty_r; done.
  - pose proof (includes_length _ _ Hin) as Hlen.
    rewrite (replace_unfold (String c a +:+ b)), (replace_unfold (String c a)).
    rewrite (prefix_app_l _ _ _ Hlen).
    destruct (String.prefix pat (String c a)) eqn:Hp.
    + rewrite slice_app by done. by rewrite app_assoc'.
    + rewrite !app_cons. f_equal. apply IH.
      rewrite includes_unfold, Hp in Hin. done.
Qed.

(** A stretch of text none of whose characters starts the pattern is copied. *)
Lemma replace_skip (c0 : ascii) pat' rep t rest :
  (forall c, In c (String.list_ascii_of_string t) -> c <> c0) ->
  Js.replace (t +:+ rest) (String c0 pat') rep
  = t +:+ Js.replace rest (String c0 pat') rep.
Proof.
  induction t as [|c t IH]; intros Hne; [done|].
  rewrite !app_cons, replace_unfold, prefix_cons.
  rewrite bool_decide_eq_false_2.
  - simpl. f_equal. apply IH. intros d Hd. apply Hne. by right.
  - intros ->. apply (Hne c); [by left|done].
Qed.






End StringFacts.

(** ** The monad *)

Lemma bind_ok {A B} (m : M A) (k : A -> M B) (fs : FileSystem) r :
  (a ← m; k a) fs = Ok r ->
  exists a fs', m fs = Ok (a, fs') /\ k a fs' = Ok r.
Proof.
  run. destruct (m fs) as [[a fs']|e]; [|done]. intros Hk. by exists a, fs'.
Qed.

(** ** The package model *)

Section PackageModel.

Context {jsNumber : JsNumber} {cheerio : Cheerio} {xml2js : Xml2js}.



Lemma manifestEntry_ids opfDir items :
  map id (map (manifestEntry opfDir) items) = map item_id items.
Proof. rewrite map_map. done. Qed.


Lemma extractManifest_ok opfData opfDir manifest :
  extractManifest opfData opfDir = Ok manifest ->
  manifest_item opfData <> [] /\
  manifest = map (manifestEntry opfDir) (manifest_item opfData).
Proof.
  unfold extractManifest. destruct (manifest_item opfData) as [|item items]; [done|].
  by intros [= <-].
Qed.

Lemma extractSpine_run opfData manifest :
  spine_itemref opfData <> [] ->
  extractSpine opfData manifest
  = mapResult (resolveItemref manifest) (spine_itemref opfData).
Proof. unfold extractSpine. by destruct (spine_itemref opfData). Qed.



Lemma appendCssFile_run combinedCss cssFile (fs : FileSystem) :
  appendCssFile combinedCss cssFile fs =
  match fs !! path cssFile with
  | Some Dir => Throw (SystemError "EISDIR" (path cssFile))
  | _ => Ok (combinedCss +:+ cssFileText fs cssFile, fs)
  end.
Proof.
  unfold appendCssFile, cssFileText. run.
  destruct (fs !! path cssFile) as [[css|]|] eqn:Hfs; simpl;
    rewrite ?Hfs, ?app_empty_r; done.
Qed.

Lemma cssLoop_run cssFiles : forall combinedCss (fs : FileSystem),
  (forall f, f ∈ cssFiles -> fs !! path f <> Some Dir) ->
  foldLoop appendCssFile combinedCss cssFiles fs =
  Ok (combinedCss +:+ Js.concat (map (cssFileText fs) cssFiles), fs).
Proof.
  induction cssFiles as [|f rest IH]; intros combinedCss fs Hfiles.
  - simpl. run. by rewrite app_empty_r.
  - simpl foldLoop. run. rewrite appendCssFile_run.
    assert (fs !! path f <> Some Dir) as Hf by (apply Hfiles; by left).
    destruct (fs !! path f) as [[css|]|] eqn:Hfs; try done.
    all: fold (@bind string string); rewrite IH by (intros; apply Hfiles; by right).
    all: simpl; by rewrite app_assoc'.
Qed.

(** What [processCssFiles] returns when no stylesheet path is a directory. *)
Lemma processCssFiles_run options cssFiles (fs : FileSystem) :
  (preserveOriginalCss options = true ->
   forall f, f ∈ cssFiles -> fs !! path f <> Some Dir) ->
  processCssFiles options cssFiles fs =
  Ok ((if preserveOriginalCss options
       then Js.concat (map (cssFileText fs) cssFiles) else "")
      +:+ customCss options +:+ pdfCss (numberToString (margin options)), fs).
Proof.
  intros Hfiles. unfold processCssFiles. run.
  assert (forall acc, (if Js.truthy (customCss options)
                       then acc +:+ customCss options else acc)
                      = acc +:+ customCss options) as Hcustom.
  { intros acc. destruct (customCss options); simpl; by rewrite ?app_empty_r. }
  destruct (preserveOriginalCss options).
  - rewrite cssLoop_run by auto. rewrite Hcustom, app_empty_l, app_assoc'. done.
  - rewrite Hcustom, app_assoc'. done.
Qed.





(** C10.  Whatever the options, the text [processCssFiles] returns ends with
    the template of lines 280-288: the [@page] rule with the configured
    margin followed by the [body] reset rule.  It returns whenever no
    stylesheet path it is asked to read is a directory, and always when the
    original stylesheets are not preserved. *)
Theorem processCssFiles_engine_suffix options cssFiles (fs : FileSystem) :
  (preserveOriginalCss options = true ->
   forall f, f ∈ cssFiles -> fs !! path f <> Some Dir) ->
  exists sources,
    processCssFiles options cssFiles fs
    = Ok (sources +:+ "
      @page {
        margin: " +:+ numberToString (margin options) +:+ "in;
      }
      body {
        margin: 0;
        padding: 0;
      }
    ", fs).
Proof.
  intros Hfiles. rewrite (processCssFiles_run _ _ _ Hfiles).
  eexists. rewrite <- app_assoc'. reflexivity.
Qed.

End PackageModel.






Lemma processCssFiles_engine_suffix_witness :
  exists sources,
    processCssFiles (jsNumber := Demo.number) (Demo.options 2 "" false) [] Demo.tree
    = Ok (sources +:+ "
      @page {
        margin: " +:+ "2" +:+ "in;
      }
      body {
        margin: 0;
        padding: 0;
      }
    ", Demo.tree).
Proof.
  apply (processCssFiles_engine_suffix (jsNumber := Demo.number)
           (Demo.options 2 "" false) [] Demo.tree).
  intros Hpreserve. discriminate Hpreserve.
Defined.

(** ** The spine loop *)

Section Assembly.

Context {cheerio : Cheerio}.

Implicit Types (fs : FileSystem) (item : EpubSpineItem) (html : string).

Lemma appendSpineItem_run html item fs :
  appendSpineItem html item fs =
  if linear item then
    match fs !! spine_path item with
    | Some Dir => Throw (SystemError "EISDIR" (spine_path item))
    | _ => Ok (spineStep fs html item, fs)
    end
  else Ok (html, fs).
Proof.
  unfold appendSpineItem, spineStep, spineBody. run.
  destruct (linear item); [|done]. simpl.
  destruct (fs !! spine_path item) as [[content|]|] eqn:Hfs; simpl;
    rewrite ?Hfs; done.
Qed.

Lemma spineLoop_run spine : forall html fs,
  (forall item, item ∈ spine -> linear item = true ->
                fs !! spine_path item <> Some Dir) ->
  foldLoop appendSpineItem html spine fs = Ok (foldl (spineStep fs) html spine, fs).
Proof.
  induction spine as [|item rest IH]; intros html fs Hvalid; [done|].
  simpl foldLoop. run. rewrite appendSpineItem_run.
  assert (forall h, foldLoop appendSpineItem h rest fs
                    = Ok (foldl (spineStep fs) h rest, fs)) as Hrest.
  { intros h. apply IH. intros it Hit. apply Hvalid. by right. }
  destruct (linear item) eqn:Hlinear.
  - pose proof (Hvalid item ltac:(by left) Hlinear) as Hitem.
    destruct (fs !! spine_path item) as [[content|]|] eqn:Hfs; try done.
    all: rewrite Hrest; done.
  - rewrite Hrest. simpl.
    replace (spineStep fs html item) with html; [done|].
    unfold spineStep. by rewrite Hlinear.
Qed.

(** The loop appends to the text it is given: for each assembled item, in
    spine order, a separator that is empty or the page-break marker, and the
    body of the item. *)
Lemma spineSteps_shape fs spine : forall html,
  exists seps,
    length seps = length (assembledItems fs spine) /\
    Forall (fun sep => sep = "" \/ sep = pageBreakDiv) seps /\
    foldl (spineStep fs) html spine
    = html +:+ Js.concat (zip_with String.append seps
                            (map (spineBody fs) (assembledItems fs spine))).
Proof.
  induction spine as [|item rest IH]; intros html.
  - exists []. simpl. by rewrite app_empty_r.
  - simpl foldl. unfold assembledItems. rewrite filter_cons.
    fold (assembledItems fs rest).
    destruct (IH (spineStep fs html item)) as (seps & Hlen & Hseps & Hfold).
    rewrite Hfold. unfold spineStep.
    destruct (linear item && bool_decide (is_Some (fs !! spine_path item))) eqn:Hkeep.
    + rewrite decide_True by done.
      exists ((if Js.includes html "</section>" then pageBreakDiv else "") :: seps).
      split; [simpl; by rewrite Hlen|]. split.
      { constructor; [|done]. destruct (Js.includes html "</section>"); auto. }
      simpl. destruct (Js.includes html "</section>");
        rewrite ?app_empty_l, !app_assoc'; done.
    + rewrite decide_False by (by intros []).
      exists seps. done.
Qed.

Lemma htmlShell_split title css :
  htmlShell title css = shellHead title css +:+ "
</head>
<body>".
Proof. unfold htmlShell, shellHead. rewrite !app_assoc'. reflexivity. Qed.

Lemma shellHead_includes_closing_tag title css :
  Js.includes (shellHead title css) "</style>" = true.
Proof.
  unfold shellHead.
  change ("
  </style>") with ("
  " +:+ "</style>" +:+ "").
  rewrite <- !app_assoc', (app_assoc' _ "</style>" ""). apply includes_app_mid.
Qed.

Lemma combinedSource_run epubData fs :
  (forall item, item ∈ spine epubData -> linear item = true ->
                fs !! spine_path item <> Some Dir) ->
  combinedSource epubData fs =
  Ok (Js.replace
        (foldl (spineStep fs)
           (htmlShell (title (metadata epubData))
              (processFontPaths (cssContent epubData) "assets/"))
           (spine epubData) +:+ "</body></html>")
        "</style>" pageBreakCss, fs).
Proof.
  intros Hvalid. unfold combinedSource. run. by rewrite spineLoop_run.
Qed.

(** What a run of the loop that returns has done: nothing was written, the
    text is the one the turns build, and no linear item was a directory. *)
Lemma spineLoop_ok spine : forall html fs out fs',
  foldLoop appendSpineItem html spine fs = Ok (out, fs') ->
  fs' = fs /\ out = foldl (spineStep fs) html spine /\
  forall item, item ∈ spine -> linear item = true ->
               fs !! spine_path item <> Some Dir.
Proof.
  induction spine as [|item rest IH]; intros html fs out fs'.
  - simpl. run. intros [= <- <-]. split; [done|]. split; [done|].
    by intros item ?%elem_of_nil.
  - simpl foldLoop. intros Hrun.
    apply bind_ok in Hrun as (html1 & fs1 & Hitem & Hrest).
    rewrite appendSpineItem_run in Hitem.
    assert (fs1 = fs /\ html1 = spineStep fs html item /\
            (linear item = true -> fs !! spine_path item <> Some Dir))
      as (-> & -> & Hdir).
    { destruct (linear item) eqn:Hlinear.
      - destruct (fs !! spine_path item) as [[content|]|] eqn:Hfs; try done;
          injection Hitem as <- <-; done.
      - injection Hitem as <- <-. split; [done|]. split; [|done].
        unfold spineStep. by rewrite Hlinear. }
    destruct (IH _ _ _ _ Hrest) as (-> & -> & Hvalid).
    split; [done|]. split; [done|].
    intros it [->|Hit]%elem_of_cons; [done|by apply Hvalid].
Qed.

Lemma combinedSource_ok epubData fs html fs' :
  combinedSource epubData fs = Ok (html, fs') ->
  fs' = fs /\
  forall item, item ∈ spine epubData -> linear item = true ->
               fs !! spine_path item <> Some Dir.
Proof.
  unfold combinedSource. intros Hrun.
  apply bind_ok in Hrun as (out & fs1 & Hloop & Hrun).
  apply spineLoop_ok in Hloop as (-> & _ & Hvalid).
  revert Hrun. run. by intros [= _ <-].
Qed.

(** The text assembled: the head of the document, the opening [body] tag,
    then, for each linear spine item whose path exists and in spine order, a
    separator that is empty or the page-break marker followed by the body of
    the item, and the closing tags. *)
Lemma combinedSource_shape epubData fs :
  (forall item, item ∈ spine epubData -> linear item = true ->
                fs !! spine_path item <> Some Dir) ->
  exists seps,
    length seps = length (assembledItems fs (spine epubData)) /\
    Forall (fun sep => sep = "" \/ sep = pageBreakDiv) seps /\
    combinedSource epubData fs =
    Ok (documentHead epubData +:+ "
</head>
<body>" +:+ Js.concat (zip_with String.append seps
                         (map (spineBody fs) (assembledItems fs (spine epubData))))
        +:+ "</body></html>", fs).
Proof.
  intros Hvalid. rewrite (combinedSource_run _ _ Hvalid).
  destruct (spineSteps_shape fs (spine epubData)
              (htmlShell (title (metadata epubData))
                 (processFontPaths (cssContent epubData) "assets/")))
    as (seps & Hlen & Hseps & Hfold).
  exists seps. split; [done|]. split; [done|].
  rewrite Hfold, htmlShell_split, !app_assoc'.
  rewrite replace_app by apply shellHead_includes_closing_tag.
  reflexivity.
Qed.

End Assembly.

Lemma Demo_data :
  processEpub (jsNumber := Demo.number) (xml2js := Demo.xml Demo.opf)
    (Demo.options 1 "" true) "/book" Demo.tree = Ok (Demo.data, Demo.tree).
Proof. evaluated. Qed.

(** C4, at two failing inputs.  The package of [Demo] has the spine
    [ch1, notes (linear = no), ch2]; neither chapter holds a closing
    [section] tag, so the test of line 413 never holds and the body of [ch2]
    follows the body of [ch1] with no page-break marker in between.  With a
    title that holds such a tag the test holds from the start, and a marker
    stands before the body of [ch1], the first document appended. *)
Theorem page_break_needs_a_section_tag :
  combinedSource (cheerio := Demo.cheerio) Demo.data Demo.tree
  = Ok (Demo.combinedText, Demo.tree) /\
  Js.includes Demo.combinedText pageBreakDiv = false /\
  match combinedSource (cheerio := Demo.cheerio) Demo.dataTitled Demo.tree with
  | Ok (html, _) =>
      Js.includes html ("<body>" +:+ pageBreakDiv +:+ "<h1>One</h1>") = true
  | Throw _ => False
  end.
Proof. split; [evaluated|]. split; [evaluated|]. vm_compute. reflexivity. Qed.

Section SkippedItems.

Context {cheerio : Cheerio}.

Lemma spineStep_skipped (fs : FileSystem) html item :
  linear item = false \/ fs !! spine_path item = None ->
  spineStep fs html item = html.
Proof.
  intros [Hlinear|Hnone]; unfold spineStep.
  - by rewrite Hlinear.
  - rewrite Hnone, bool_decide_eq_false_2 by (by intros [? ?]).
    by rewrite andb_false_r.
Qed.

(** C6 (as amended).  A spine item that is not linear, or whose path does
    not exist, is passed over: the text assembled is the text assembled from
    the spine without that item, and assembly succeeds as long as no linear
    item among the others has a directory at its path. *)
Theorem skipped_item_leaves_the_rest epubData before item after (fs : FileSystem) :
  spine epubData = before ++ item :: after ->
  linear item = false \/ fs !! spine_path item = None ->
  (forall other, other ∈ before ++ after -> linear other = true ->
                 fs !! spine_path other <> Some Dir) ->
  (forall html, appendSpineItem html item fs = Ok (html, fs)) /\
  exists html,
    combinedSource epubData fs = Ok (html, fs) /\
    combinedSource (setSpine epubData (before ++ after)) fs = Ok (html, fs).
Proof.
  intros Hspine Hskip Hothers. split.
  { intros html. rewrite appendSpineItem_run. destruct Hskip as [->|Hnone]; [done|].
    rewrite Hnone. destruct (linear item); [|done].
    by rewrite spineStep_skipped by auto. }
  eexists. split.
  - rewrite combinedSource_run; [reflexivity|].
    rewrite Hspine. intros other Hother Hlinear.
    apply elem_of_app in Hother as [Hother|Hother].
    + apply Hothers; [|done]. apply elem_of_app. by left.
    + apply elem_of_cons in Hother as [->|Hother].
      * destruct Hskip as [Hfalse|Hnone]; [congruence|]. by rewrite Hnone.
      * apply Hothers; [|done]. apply elem_of_app. by right.
  - rewrite combinedSource_run by done. simpl. rewrite Hspine.
    rewrite !foldl_app. simpl. by rewrite spineStep_skipped.
Qed.

End SkippedItems.

(** C6, as the claim states it, fails: the second chapter of the package is
    declared at a path that exists and cannot be read, a directory.  The item
    is not passed over; reading it throws and the conversion ends there. *)
Lemma unreadable_item_ends_the_conversion :
  convert (jsNumber := Demo.number) (cheerio := Demo.cheerio)
    (xml2js := Demo.xml Demo.opf) (Demo.options 1 "" true)
    "/book" "/tmp/a" Demo.treeWithDirectory
  = Throw (SystemError "EISDIR" "/book/OEBPS/ch2.xhtml").
Proof. evaluated. Qed.

Lemma skipped_item_leaves_the_rest_witness :
  (forall html,
     appendSpineItem (cheerio := Demo.cheerio) html
       {| idref := "notes"; linear := false; spine_href := "notes.xhtml";
          spine_path := "/book/OEBPS/notes.xhtml" |} Demo.tree
     = Ok (html, Demo.tree)) /\
  exists html,
    combinedSource (cheerio := Demo.cheerio) Demo.data Demo.tree
      = Ok (html, Demo.tree) /\
    combinedSource (cheerio := Demo.cheerio)
      (setSpine Demo.data
         ([ {| idref := "ch1"; linear := true; spine_href := "ch1.xhtml";
               spine_path := "/book/OEBPS/ch1.xhtml" |} ] ++
          [ {| idref := "ch2"; linear := true; spine_href := "ch2.xhtml";
               spine_path := "/book/OEBPS/ch2.xhtml" |} ])) Demo.tree
      = Ok (html, Demo.tree).
Proof.
  apply (skipped_item_leaves_the_rest (cheerio := Demo.cheerio) Demo.data).
  - reflexivity.
  - left. reflexivity.
  - intros other Hother _. revert other Hother.
    apply Forall_forall. apply (bool_decide_unpack _). by vm_compute.
Defined.

(** ** Image paths *)

Section ImagePaths.

Context {cheerio : Cheerio}.

Lemma node_ind' (P : node -> Prop) :
  (forall data, P (Text data)) ->
  (forall data, P (Comment data)) ->
  (forall data, P (Directive data)) ->
  (forall name attribs children,
     Forall P children -> P (Element name attribs children)) ->
  forall n, P n.
Proof.
  intros HText HComment HDirective HElement.
  fix IH 1.
  intros [data|data|data|name attribs children];
    [apply HText|apply HComment|apply HDirective|].
  apply HElement.
  induction children as [|c cs IHcs]; constructor; [apply IH|apply IHcs].
Qed.

Lemma getAttr_setAttr name value attribs :
  is_Some (Dom.getAttr name attribs) ->
  Dom.getAttr name (Dom.setAttr name value attribs) = Some value.
Proof.
  induction attribs as [|[k v] rest IH]; simpl.
  - by intros [? ?].
  - case_bool_decide as Hk; simpl.
    + by rewrite bool_decide_eq_true_2.
    + by rewrite bool_decide_eq_false_2.
Qed.

Lemma getAttr_fixImagePath attribs :
  Dom.getAttr "src" (fixImagePath attribs) = fixedSource <$> Dom.getAttr "src" attribs.
Proof.
  unfold fixImagePath, fixedSource.
  destruct (Dom.getAttr "src" attribs) as [src|] eqn:Hsrc; [|by rewrite Hsrc].
  simpl. destruct (Js.truthy src); [|done].
  apply getAttr_setAttr. by rewrite Hsrc.
Qed.

Lemma getAttr_sweepImagePath attribs :
  Dom.getAttr "src" (sweepImagePath attribs) = sweptSource <$> Dom.getAttr "src" attribs.
Proof.
  unfold sweepImagePath, sweptSource.
  destruct (Dom.getAttr "src" attribs) as [src|] eqn:Hsrc; [|by rewrite Hsrc].
  simpl. destruct (Js.truthy src && negb (Js.startsWith src "assets/")); [|done].
  apply getAttr_setAttr. by rewrite Hsrc.
Qed.

(** The callback runs on each element of the name and on nothing else. *)
Lemma select_eachElement tag f n :
  Dom.select tag (Dom.eachElement tag f n) = map f (Dom.select tag n).
Proof.
  induction n as [data|data|data|name attribs children IH] using node_ind';
    try done.
  simpl. rewrite map_app. f_equal.
  - by case_bool_decide.
  - induction IH as [|c cs Hc _ IHcs]; [done|].
    simpl. by rewrite map_app, Hc, IHcs.
Qed.

Lemma firstChildren_eachElement tag tag' f n :
  tag <> tag' ->
  Dom.firstChildren tag (Dom.eachElement tag' f n)
  = map (Dom.eachElement tag' f) <$> Dom.firstChildren tag n.
Proof.
  intros Hne.
  induction n as [data|data|data|name attribs children IH] using node_ind';
    try done.
  simpl. case_bool_decide; [done|].
  induction IH as [|c cs Hc _ IHcs]; [done|].
  simpl. rewrite Hc. destruct (Dom.firstChildren tag c); [done|]. apply IHcs.
Qed.

Lemma firstOf_eachElement tag tag' f doc :
  tag <> tag' ->
  Dom.firstOf tag (map (Dom.eachElement tag' f) doc)
  = map (Dom.eachElement tag' f) <$> Dom.firstOf tag doc.
Proof.
  intros Hne. unfold Dom.firstOf.
  induction doc as [|n doc IH]; [done|].
  simpl. rewrite firstChildren_eachElement by done.
  destruct (Dom.firstChildren tag n); [done|]. apply IH.
Qed.

(** The body content the source extracts is the one of the specification:
    rewriting the image sources of the whole document and taking the body
    comes to taking the body and rewriting its image sources. *)
Lemma bodyContent_documentBody content : bodyContent content = documentBody content.
Proof.
  unfold bodyContent, documentBody. rewrite firstOf_eachElement by done.
  by destruct (Dom.firstOf "body" (cheerio_load content)).
Qed.

Lemma spineBody_itemBody (fs : FileSystem) item : spineBody fs item = itemBody fs item.
Proof.
  unfold spineBody, itemBody.
  destruct (fs !! spine_path item) as [[content|]|]; [|done..].
  apply bodyContent_documentBody.
Qed.

Lemma imageSources_each f g doc :
  (forall attribs, Dom.getAttr "src" (f attribs) = g <$> Dom.getAttr "src" attribs) ->
  imageSources (map (Dom.eachElement "img" f) doc) = map g (imageSources doc).
Proof.
  intros Hf. unfold imageSources.
  assert (forall l, omap (Dom.getAttr "src") (map f l)
                    = map g (omap (Dom.getAttr "src") l)) as Homap.
  { assert (forall a (l : list (list (string * string))),
              omap (Dom.getAttr "src") (a :: l)
              = match Dom.getAttr "src" a with
                | Some src => src :: omap (Dom.getAttr "src") l
                | None => omap (Dom.getAttr "src") l
                end) as Hcons by done.
    induction l as [|a l IH]; [done|].
    change (map f (a :: l)) with (f a :: map f l).
    rewrite !Hcons, Hf, IH.
    by destruct (Dom.getAttr "src" a). }
  rewrite <- Homap. f_equal.
  induction doc as [|n doc IH]; [done|].
  simpl. by rewrite (map_app f), select_eachElement, IH.
Qed.

Lemma sweptSource_in_assets src :
  sweptSource src = "" \/ Js.startsWith (sweptSource src) "assets/" = true.
Proof.
  unfold sweptSource. destruct src as [|c src]; [by left|]. right. simpl Js.truthy.
  destruct (Js.startsWith (String c src) "assets/") eqn:Hstarts; simpl; [done|].
  unfold Js.startsWith. apply prefix_app.
Qed.

(** C5 (as amended).  The first pass replaces every non-empty image source of
    a content document by [assets/] and its basename, and keeps an empty one.
    In the combined document every image source is empty or starts with
    [assets/]: the final sweep replaces a non-empty source that does not start
    with [assets/] by [assets/] and its basename, and keeps the others. *)
Theorem image_sources_point_into_assets epubData (fs : FileSystem) :
  (forall content,
     imageSources (map (Dom.eachElement "img" fixImagePath) (cheerio_load content))
     = map fixedSource (imageSources (cheerio_load content))) /\
  match combinedDocument epubData fs with
  | Ok (doc, _) =>
      Forall (fun src => src = "" \/ Js.startsWith src "assets/" = true)
        (imageSources doc) /\
      exists html,
        combinedSource epubData fs = Ok (html, fs) /\
        imageSources doc = map sweptSource (imageSources (cheerio_load html))
  | Throw _ => True
  end.
Proof.
  split.
  { intros content. apply imageSources_each, getAttr_fixImagePath. }
  unfold combinedDocument. run.
  destruct (combinedSource epubData fs) as [[html fs']|e] eqn:Hsource; [|done].
  assert (fs' = fs) as ->.
  { unfold combinedSource in Hsource. revert Hsource. run.
    generalize (htmlShell (title (metadata epubData))
                  (processFontPaths (cssContent epubData) "assets/")).
    induction (spine epubData) as [|item rest IH]; intros html0; simpl.
    - run. congruence.
    - run. rewrite appendSpineItem_run.
      destruct (linear item); [destruct (fs !! spine_path item) as [[?|]|]|];
        try done; apply IH. }
  rewrite (imageSources_each _ _ _ getAttr_sweepImagePath). split.
  - apply Forall_forall. intros src Hsrc.
    apply list_elem_of_fmap in Hsrc as (src0 & -> & _).
    apply sweptSource_in_assets.
  - by exists html.
Qed.

End ImagePaths.

(** C5, as the claim states it, fails: the second chapter of the package
    holds an image whose source is empty; neither pass rewrites it, and the
    combined document keeps an image source that is not under [assets/]. *)
Lemma empty_image_source_is_kept :
  match combinedDocument (cheerio := Demo.cheerio) Demo.data Demo.tree with
  | Ok (doc, _) => imageSources doc = ["assets/cover.png"; ""]
  | Throw _ => False
  end.
Proof. vm_compute. reflexivity. Qed.

(** ** The rewriting of [url(...)] references *)

Section UrlRewriting.

Implicit Types (s t rest : string) (r : UrlReference).

Lemma spanClass_run p rest :
  allInClass p = true ->
  match rest with String c _ => UrlRegex.inClass c = false | EmptyString => True end ->
  UrlRegex.spanClass (p +:+ rest) = (p, rest).
Proof.
  intros Hp Hrest. induction p as [|c p IH].
  - rewrite app_empty_l. destruct rest as [|d rest]; [done|]. simpl. by rewrite Hrest.
  - simpl in Hp. apply andb_true_iff in Hp as [Hc Hp].
    rewrite app_cons. simpl. by rewrite Hc, (IH Hp).
Qed.

Lemma optionalQuote_cases q :
  optionalQuote q = true -> q = "" \/ q = "'" \/ q = dq.
Proof.
  unfold optionalQuote. intros Hq.
  apply orb_true_iff in Hq as [Hq|Hq]; [apply orb_true_iff in Hq as [Hq|Hq]|];
    apply bool_decide_eq_true in Hq; auto.
Qed.

Lemma skipQuote_class c s :
  UrlRegex.inClass c = true -> UrlRegex.skipQuote (String c s) = String c s.
Proof.
  unfold UrlRegex.inClass. simpl. intros Hc.
  apply negb_true_iff, orb_false_iff in Hc as [-> _]. done.
Qed.

(** At a reference of the matched kind the expression matches, captures the
    path and stops after the closing parenthesis. *)
Lemma matchAt_written r rest :
  matched r = true ->
  UrlRegex.matchAt (written r +:+ rest) = Some (referenced r, rest).
Proof.
  unfold matched. intros Hr.
  apply andb_true_iff in Hr as [Hr Hclass].
  apply andb_true_iff in Hr as [Hr Htruthy].
  apply andb_true_iff in Hr as [Hopen Hclose].
  destruct (referenced r) as [|c p] eqn:Hp; [done|].
  assert (UrlRegex.inClass c = true) as Hc.
  { simpl in Hclass. by apply andb_true_iff in Hclass as [? _]. }
  unfold written, UrlRegex.matchAt. rewrite Hp.
  rewrite !app_assoc'. rewrite prefix_app.
  change 4 with (String.length "url("). rewrite slice_length_app.
  assert (UrlRegex.skipQuote (opening r +:+ String c p +:+ closing r +:+ ")" +:+ rest)
          = String c p +:+ closing r +:+ ")" +:+ rest) as ->.
  { destruct (optionalQuote_cases _ Hopen) as [->|[->| ->]]; try done.
    rewrite app_empty_l, app_cons. by apply skipQuote_class. }
  rewrite spanClass_run; [|done|].
  - simpl Js.truthy. cbv iota.
    destruct (optionalQuote_cases _ Hclose) as [->|[->| ->]]; done.
  - destruct (optionalQuote_cases _ Hclose) as [->|[->| ->]]; done.
Qed.

Lemma matchAt_no_prefix s :
  String.prefix "url(" s = false -> UrlRegex.matchAt s = None.
Proof. unfold UrlRegex.matchAt. by intros ->. Qed.

Lemma prefix_split p s :
  String.prefix p s = true -> exists x, s = p +:+ x.
Proof.
  revert s. induction p as [|c p IH]; intros s Hp.
  - by exists s.
  - destruct s as [|d s]; [done|]. rewrite prefix_cons in Hp.
    apply andb_true_iff in Hp as [Hc Hp]. apply bool_decide_eq_true in Hc as ->.
    destruct (IH _ Hp) as [x ->]. by exists x.
Qed.

(** The text [url(] overlaps no other occurrence of itself: a text that does
    not hold it cannot start one that ends in a following [url(]. *)
Lemma no_match_across c t rest :
  String.prefix "url(" (String c t) = false ->
  rest = "" \/ String.prefix "url(" rest = true ->
  String.prefix "url(" (String c t +:+ rest) = false.
Proof.
  intros Hhere [->|Hrest]; [by rewrite app_empty_r|].
  destruct (prefix_split _ _ Hrest) as [x ->].
  destruct t as [|c2 [|c3 [|c4 t]]].
  - change ("url(" +:+ x) with (String "u" (String "r" (String "l" (String "(" x)))).
    rewrite !app_cons, app_empty_l, !prefix_cons.
    by rewrite (bool_decide_eq_false_2 ("r"%char = "u"%char)), andb_false_r.
  - change ("url(" +:+ x) with (String "u" (String "r" (String "l" (String "(" x)))).
    rewrite !app_cons, app_empty_l, !prefix_cons.
    by rewrite (bool_decide_eq_false_2 ("l"%char = "u"%char)), !andb_false_r.
  - change ("url(" +:+ x) with (String "u" (String "r" (String "l" (String "(" x)))).
    rewrite !app_cons, app_empty_l, !prefix_cons.
    by rewrite (bool_decide_eq_false_2 ("("%char = "u"%char)), !andb_false_r.
  - rewrite prefix_app_l; [done|]. simpl. lia.
Qed.

Lemma replaceAll_empty fuel f : UrlRegex.replaceAll fuel f "" = "".
Proof. by destruct fuel. Qed.

(** A text that holds no [url(] is copied, and the search goes on after it. *)
Lemma replaceAll_text f rest t : forall fuel,
  Js.includes t "url(" = false ->
  rest = "" \/ String.prefix "url(" rest = true ->
  String.length t <= fuel ->
  UrlRegex.replaceAll fuel f (t +:+ rest)
  = t +:+ UrlRegex.replaceAll (fuel - String.length t) f rest.
Proof.
  induction t as [|c t IH]; intros fuel Hnone Hrest Hfuel.
  - rewrite app_empty_l. simpl. by rewrite Nat.sub_0_r.
  - rewrite includes_unfold in Hnone. apply orb_false_iff in Hnone as [Hhere Hnone].
    destruct fuel as [|fuel]; [simpl in Hfuel; lia|].
    simpl UrlRegex.replaceAll at 1.
    rewrite matchAt_no_prefix by (by apply no_match_across).
    rewrite app_cons. f_equal. apply IH; try done. simpl in Hfuel. lia.
Qed.

Lemma written_starts_with_url r rest :
  String.prefix "url(" (written r +:+ rest) = true.
Proof. unfold written. rewrite !app_assoc'. apply prefix_app. Qed.

Lemma skipQuote_length s :
  String.length (UrlRegex.skipQuote s) <= String.length s.
Proof. destruct s as [|c s]; simpl; [lia|]. destruct (UrlRegex.isQuote c); simpl; lia. Qed.

Lemma spanClass_length s :
  String.length (UrlRegex.spanClass s).2 <= String.length s.
Proof.
  induction s as [|c s IH]; simpl; [lia|].
  destruct (UrlRegex.inClass c); simpl; [|lia].
  destruct (UrlRegex.spanClass s) as [run rest]. simpl in *. lia.
Qed.

(** A match is never empty: what follows it is shorter than the text. *)
Lemma matchAt_shorter s run rest :
  UrlRegex.matchAt s = Some (run, rest) -> String.length rest < String.length s.
Proof.
  unfold UrlRegex.matchAt.
  destruct (String.prefix "url(" s) eqn:Hprefix; [|done].
  destruct (prefix_split _ _ Hprefix) as [x ->].
  change 4 with (String.length "url("). rewrite slice_length_app.
  pose proof (skipQuote_length x) as Hx.
  pose proof (spanClass_length (UrlRegex.skipQuote x)) as Hspan.
  destruct (UrlRegex.spanClass (UrlRegex.skipQuote x)) as [r rest0]. simpl in Hspan.
  destruct (Js.truthy r); [|done].
  pose proof (skipQuote_length rest0) as Hrest0.
  destruct (UrlRegex.skipQuote rest0) as [|c rest1]; [done|].
  case_bool_decide; [|done]. intros [= _ <-].
  rewrite length_app. simpl in *. lia.
Qed.

Lemma replaceAll_fuel f n : forall s fuel1 fuel2,
  String.length s <= n ->
  String.length s < fuel1 -> String.length s < fuel2 ->
  UrlRegex.replaceAll fuel1 f s = UrlRegex.replaceAll fuel2 f s.
Proof.
  induction n as [|n IH]; intros s fuel1 fuel2 Hn H1 H2.
  - destruct s; [|simpl in Hn; lia]. by rewrite !replaceAll_empty.
  - destruct fuel1 as [|fuel1]; [lia|]. destruct fuel2 as [|fuel2]; [lia|].
    simpl. destruct (UrlRegex.matchAt s) as [[run rest]|] eqn:Hmatch.
    + apply matchAt_shorter in Hmatch. f_equal. apply IH; lia.
    + destruct s as [|c s]; [done|]. f_equal. simpl in *. apply IH; lia.
Qed.

(** The optional quote that [skipQuote] passes over. *)
Lemma skipQuote_spec s :
  exists q, optionalQuote q = true /\ s = q +:+ UrlRegex.skipQuote s.
Proof.
  destruct s as [|c s]; [by exists ""|]. simpl.
  unfold UrlRegex.isQuote.
  destruct (bool_decide (c = "'"%char)) eqn:Hsingle.
  { apply bool_decide_eq_true in Hsingle as ->. by exists "'". }
  destruct (bool_decide (c = "034"%char)) eqn:Hdouble.
  { apply bool_decide_eq_true in Hdouble as ->. by exists dq. }
  by exists "".
Qed.

Lemma spanClass_spec s run rest :
  UrlRegex.spanClass s = (run, rest) -> s = run +:+ rest /\ allInClass run = true.
Proof.
  revert run rest. induction s as [|c s IH]; intros run rest; simpl.
  - by intros [= <- <-].
  - destruct (UrlRegex.inClass c) eqn:Hc.
    + destruct (UrlRegex.spanClass s) as [run' rest'].
      intros [= <- <-]. destruct (IH _ _ eq_refl) as [-> Hrun].
      split; [done|]. simpl. by rewrite Hc.
    + by intros [= <- <-].
Qed.

(** Where the expression matches, the text starts with a reference of the
    matched kind, whose path is the one captured. *)
Lemma matchAt_complete s p rest :
  UrlRegex.matchAt s = Some (p, rest) ->
  exists r, matched r = true /\ referenced r = p /\ s = written r +:+ rest.
Proof.
  unfold UrlRegex.matchAt.
  destruct (String.prefix "url(" s) eqn:Hprefix; [|done].
  destruct (prefix_split _ _ Hprefix) as [x ->].
  change 4 with (String.length "url("). rewrite slice_length_app.
  destruct (skipQuote_spec x) as (q1 & Hq1 & Hx).
  destruct (UrlRegex.spanClass (UrlRegex.skipQuote x)) as [run rest0] eqn:Hspan.
  apply spanClass_spec in Hspan as [Hspan Hclass].
  destruct (Js.truthy run) eqn:Htruthy; [|done].
  destruct (skipQuote_spec rest0) as (q2 & Hq2 & Hrest0).
  destruct (UrlRegex.skipQuote rest0) as [|c rest1]; [done|].
  case_bool_decide as Hc; [|done]. subst c. intros [= <- <-].
  exists {| opening := q1; referenced := run; closing := q2 |}.
  split; [|split; [done|]].
  - unfold matched. simpl. by rewrite Hq1, Hq2, Htruthy, Hclass.
  - unfold written. simpl. rewrite Hx, Hspan, Hrest0.
    rewrite !app_assoc'. done.
Qed.

Lemma replaceAll_stylesheet f parts tail : forall fuel,
  Forall (fun part => Js.includes part.1 "url(" = false /\ matched part.2 = true) parts ->
  String.length (stylesheet written parts tail) < fuel ->
  UrlRegex.replaceAll fuel f (stylesheet written parts tail)
  = stylesheet (fun r => f (referenced r)) parts
      (UrlRegex.replaceAll (S (String.length tail)) f tail).
Proof.
  induction parts as [|[text r] rest IH]; intros fuel Hparts Hfuel.
  - cbn [stylesheet] in *. apply (replaceAll_fuel _ (String.length tail)); lia.
  - apply Forall_cons in Hparts as [[Htext Hr] Hparts]. simpl in Htext, Hr.
    simpl stylesheet in *. rewrite length_app in Hfuel.
    rewrite replaceAll_text;
      [|done|right; apply written_starts_with_url|lia].
    f_equal.
    assert (5 <= String.length (written r)) as Hlen.
    { unfold written. rewrite !length_app. simpl. lia. }
    rewrite length_app in Hfuel.
    destruct (fuel - String.length text) as [|fuel'] eqn:Hsub; [lia|].
    simpl UrlRegex.replaceAll at 1. rewrite matchAt_written by done.
    f_equal. apply IH; try done. lia.
Qed.

(** C9 (as amended).  [processFontPaths] reads a stylesheet from left to
    right.  References of the matched kind ([url(p)] with each quote absent
    or present, [p] not empty and free of quotes and closing parentheses),
    each after a text that holds no [url(] of its own, are every one replaced
    by [url('<fontDir><basename of p>')], whatever rule they stand in and
    whatever follows the last of them; the texts before them are kept, and
    what follows is rewritten in the same way.  A character at which no
    reference of the matched kind starts is copied, and the reading goes on
    with the next character. *)
Theorem every_matched_reference_is_rewritten fontDir :
  (forall parts tail,
     Forall (fun part => Js.includes part.1 "url(" = false /\ matched part.2 = true)
       parts ->
     processFontPaths (stylesheet written parts tail) fontDir
     = stylesheet (rewritten fontDir) parts (processFontPaths tail fontDir)) /\
  (forall c s,
     (forall r rest, matched r = true -> String c s <> written r +:+ rest) ->
     processFontPaths (String c s) fontDir
     = String c (processFontPaths s fontDir)).
Proof.
  split.
  - intros parts tail Hparts. unfold processFontPaths.
    apply (replaceAll_stylesheet
             (fun fontPath => "url('" +:+ fontDir +:+ Path.basename fontPath +:+ "')"));
      [done|lia].
  - intros c s Hnone. unfold processFontPaths.
    change (String.length (String c s)) with (S (String.length s)).
    simpl UrlRegex.replaceAll at 1.
    destruct (UrlRegex.matchAt (String c s)) as [[p rest]|] eqn:Hmatch; [|done].
    apply matchAt_complete in Hmatch as (r & Hr & _ & Hs).
    by destruct (Hnone r rest Hr).
Qed.

End UrlRewriting.

(** C9, as the claim states it, fails: a reference written with a blank
    after the opening parenthesis, which CSS allows, is not matched by the
    expression and stays as it is. *)
Lemma spaced_reference_is_not_rewritten :
  processFontPaths "body { background-image: url( 'images/paper.png' ); }" "assets/"
  = "body { background-image: url( 'images/paper.png' ); }".
Proof. evaluated. Qed.

Lemma every_matched_reference_is_rewritten_witness :
  processFontPaths
    (stylesheet written
       [ ("@font-face { src: ",
          {| opening := "'"; referenced := "../fonts/a.ttf"; closing := "'" |});
         ("; } body { background-image: ",
          {| opening := ""; referenced := "images/paper.png"; closing := "" |}) ]
       "; } p { background: url( 'x' ); }") "assets/"
  = "@font-face { src: url('assets/a.ttf'); } body { background-image: url('assets/paper.png'); } p { background: url( 'x' ); }".
Proof.
  refine (eq_trans
            (proj1 (every_matched_reference_is_rewritten "assets/")
               [ ("@font-face { src: ",
                  {| opening := "'"; referenced := "../fonts/a.ttf"; closing := "'" |});
                 ("; } body { background-image: ",
                  {| opening := ""; referenced := "images/paper.png"; closing := "" |}) ]
               "; } p { background: url( 'x' ); }" _) _).
  - repeat constructor.
  - evaluated.
Defined.

(** ** Two runs of the assembly *)

Section Determinism.

Context {cheerio : Cheerio}.

Implicit Types (fs : FileSystem).

Lemma tmpDir_frame name fs tempDir fs' :
  Fs.tmpDir name fs = Ok (tempDir, fs') ->
  tempDir = name /\ forall q, q <> name -> fs' !! q = fs !! q.
Proof.
  unfold Fs.tmpDir. destruct (fs !! name); [done|].
  intros [= <- <-]. split; [done|]. intros q Hq. by rewrite lookup_insert_ne.
Qed.

Lemma mkdir_frame p fs u fs' :
  Fs.mkdir p fs = Ok (u, fs') -> forall q, q <> p -> fs' !! q = fs !! q.
Proof.
  unfold Fs.mkdir. destruct (fs !! p); [done|].
  intros [= _ <-] q Hq. by rewrite lookup_insert_ne.
Qed.

Lemma subtree_spec dir fs rest e :
  (rest, e) ∈ Fs.subtree dir fs ->
  fs !! (dir +:+ rest) = Some e /\ String.prefix "/" rest = true.
Proof.
  unfold Fs.subtree. intros ([q e'] & Hq & Hsome)%list_elem_of_omap.
  apply elem_of_map_to_list in Hq. simpl in Hsome.
  destruct (Fs.below dir q) eqn:Hbelow; [|done].
  injection Hsome as <- <-.
  destruct (prefix_split _ _ Hbelow) as [x ->].
  rewrite app_assoc', slice_length_app. rewrite app_assoc' in Hq.
  split; [done|]. apply (prefix_app "/").
Qed.

Lemma below_app dest rest :
  String.prefix "/" rest = true -> Fs.below dest (dest +:+ rest) = true.
Proof.
  intros Hrest. destruct (prefix_split _ _ Hrest) as [x ->].
  unfold Fs.below. rewrite <- app_assoc'. apply prefix_app.
Qed.

Lemma putSubtree_frame dest items fs q :
  (forall item, item ∈ items -> dest +:+ item.1 <> q) ->
  Fs.putSubtree dest items fs !! q = fs !! q.
Proof.
  induction items as [|item items IH]; intros Hitems; [done|].
  simpl. rewrite lookup_insert_ne by (apply Hitems; by left).
  apply IH. intros it Hit. apply Hitems. by right.
Qed.

Lemma putSubtree_mono dest items fs q :
  is_Some (fs !! q) -> is_Some (Fs.putSubtree dest items fs !! q).
Proof.
  intros Hq. induction items as [|item items IH]; [done|].
  simpl. destruct (decide (dest +:+ item.1 = q)) as [->|Hne].
  - rewrite lookup_insert_eq. by eauto.
  - by rewrite lookup_insert_ne.
Qed.

(** What a copy that returns has written: the destination and, for a
    directory, paths below it. *)
Lemma copy_ok src dest fs u fs' :
  Fs.copy src dest fs = Ok (u, fs') ->
  is_Some (fs !! src) /\
  exists items,
    (forall item, item ∈ items -> String.prefix "/" item.1 = true) /\
    exists e, fs' = Fs.putSubtree dest items (<[dest := e]> fs).
Proof.
  unfold Fs.copy. destruct (fs !! src) as [e|] eqn:Hsrc; [|done].
  case_bool_decide; [done|].
  destruct (Fs.overwriteError src dest e (fs !! dest)); [done|].
  intros Hrun. split; [by eauto|]. revert Hrun. destruct e as [content|].
  - intros [= _ <-]. exists []. split; [by intros item ?%elem_of_nil|].
    by exists (File content).
  - destruct (Fs.below src dest); [done|].
    destruct (Fs.subtreeError src dest fs (Fs.subtree src fs)); [done|].
    intros [= _ <-]. exists (Fs.subtree src fs). split; [|by exists Dir].
    intros [rest e] Hitem. by apply subtree_spec in Hitem as [_ ?].
Qed.

Lemma copy_frame src dest fs u fs' :
  Fs.copy src dest fs = Ok (u, fs') ->
  forall q, q <> dest -> Fs.below dest q = false -> fs' !! q = fs !! q.
Proof.
  intros (_ & items & Hitems & e & ->)%copy_ok q Hne Hbelow.
  rewrite putSubtree_frame, lookup_insert_ne; [done..|].
  intros item Hitem <-. rewrite below_app in Hbelow; [done|by apply Hitems].
Qed.

Lemma copy_run src dest fs u fs' :
  Fs.copy src dest fs = Ok (u, fs') ->
  is_Some (fs !! src) /\ is_Some (fs' !! dest) /\
  forall q, is_Some (fs !! q) -> is_Some (fs' !! q).
Proof.
  intros (Hsrc & items & Hitems & e & ->)%copy_ok. split; [done|]. split.
  - apply putSubtree_mono. rewrite lookup_insert_eq. by eauto.
  - intros q Hq. apply putSubtree_mono.
    destruct (decide (q = dest)) as [->|Hne].
    + rewrite lookup_insert_eq. by eauto.
    + by rewrite lookup_insert_ne.
Qed.

Lemma copies_frame assetsDir files : forall fs u fs',
  forEach (copyAsset assetsDir) files fs = Ok (u, fs') ->
  forall q,
    q ∉ map (fun file => Path.join [assetsDir; Path.basename (href file)]) files ->
    Forall (fun copied => Fs.below copied q = false)
      (map (fun file => Path.join [assetsDir; Path.basename (href file)]) files) ->
    fs' !! q = fs !! q.
Proof.
  induction files as [|file rest IH]; intros fs u fs' Hrun q Hq Hbelow.
  - simpl in Hrun. revert Hrun. run. by intros [= _ <-].
  - simpl in Hrun. apply bind_ok in Hrun as (u1 & fs1 & Hcopy & Hrest).
    simpl in Hq, Hbelow. apply not_elem_of_cons in Hq as [Hne Hq].
    apply Forall_cons in Hbelow as [Hhere Hbelow].
    rewrite (IH _ _ _ Hrest q Hq Hbelow). by apply (copy_frame _ _ _ _ _ Hcopy).
Qed.

(** The preparation writes inside the temporary directory only: at the
    directory, at its [assets] directory, and at and below the destinations
    of the copies. *)
Lemma prepareAssets_frame epubData tmpName fs tempDir fs' :
  prepareAssets epubData tmpName fs = Ok (tempDir, fs') ->
  tempDir = tmpName /\
  forall q, q ∉ assetTargets epubData tmpName ->
            Forall (fun copied => Fs.below copied q = false)
              (assetCopies epubData tmpName) ->
            fs' !! q = fs !! q.
Proof.
  unfold prepareAssets. intros Hrun.
  apply bind_ok in Hrun as (t & fs1 & Htmp & Hrun).
  apply tmpDir_frame in Htmp as [-> Htmp].
  apply bind_ok in Hrun as (u2 & fs2 & Hmkdir & Hrun).
  apply bind_ok in Hrun as (u3 & fs3 & Hfonts & Hrun).
  apply bind_ok in Hrun as (u4 & fs4 & Himages & Hrun).
  revert Hrun. run. intros [= <- <-]. split; [done|].
  intros q Hq Hbelow. unfold assetTargets in Hq. unfold assetCopies in Hbelow.
  apply not_elem_of_cons in Hq as [Hq1 Hq].
  apply not_elem_of_cons in Hq as [Hq2 Hq].
  rewrite map_app in Hq. apply not_elem_of_app in Hq as [Hq3 Hq4].
  rewrite map_app in Hbelow. apply Forall_app in Hbelow as [Hb3 Hb4].
  rewrite (copies_frame _ _ _ _ _ Himages q Hq4 Hb4).
  rewrite (copies_frame _ _ _ _ _ Hfonts q Hq3 Hb3).
  rewrite (mkdir_frame _ _ _ _ Hmkdir q Hq2).
  by apply Htmp.
Qed.

(** The spine loop reads the paths of the linear spine items and nothing
    else: on two file systems that agree there it appends the same text or
    throws the same exception, and it writes nothing. *)
Lemma spineLoop_reads spine : forall html fs fs',
  (forall item, item ∈ spine -> linear item = true ->
                fs' !! spine_path item = fs !! spine_path item) ->
  match foldLoop appendSpineItem html spine fs with
  | Ok (out, fs0) =>
      fs0 = fs /\ foldLoop appendSpineItem html spine fs' = Ok (out, fs')
  | Throw e => foldLoop appendSpineItem html spine fs' = Throw e
  end.
Proof.
  induction spine as [|item rest IH]; intros html fs fs' Hagree; [done|].
  assert (forall h, match foldLoop appendSpineItem h rest fs with
                    | Ok (out, fs0) =>
                        fs0 = fs /\ foldLoop appendSpineItem h rest fs' = Ok (out, fs')
                    | Throw e => foldLoop appendSpineItem h rest fs' = Throw e
                    end) as Hrest.
  { intros h. apply IH. intros it Hit. apply Hagree. by right. }
  simpl foldLoop. run. rewrite !appendSpineItem_run.
  destruct (linear item) eqn:Hlinear; [|apply Hrest].
  unfold spineStep, spineBody.
  rewrite (Hagree item ltac:(by left) Hlinear).
  destruct (fs !! spine_path item) as [[content|]|]; try done; apply Hrest.
Qed.

Lemma combinedDocument_reads epubData fs fs' :
  (forall item, item ∈ spine epubData -> linear item = true ->
                fs' !! spine_path item = fs !! spine_path item) ->
  match combinedDocument epubData fs with
  | Ok (doc, fs0) => fs0 = fs /\ combinedDocument epubData fs' = Ok (doc, fs')
  | Throw e => combinedDocument epubData fs' = Throw e
  end.
Proof.
  intros Hagree. unfold combinedDocument, combinedSource. run.
  pose proof (spineLoop_reads (spine epubData)
                (htmlShell (title (metadata epubData))
                   (processFontPaths (cssContent epubData) "assets/"))
                fs fs' Hagree) as Hloop.
  destruct (foldLoop appendSpineItem _ (spine epubData) fs) as [[out fs0]|e].
  - destruct Hloop as [-> ->]. done.
  - by rewrite Hloop.
Qed.

(** What a successful run of [createCombinedHtml] has done. *)
Lemma createCombinedHtml_ok epubData tmpName fs htmlPath fs' :
  createCombinedHtml epubData tmpName fs = Ok (htmlPath, fs') ->
  exists prepared doc,
    prepareAssets epubData tmpName fs = Ok (tmpName, prepared) /\
    combinedDocument epubData prepared = Ok (doc, prepared) /\
    htmlPath = Path.join [tmpName; "combined.html"] /\
    fs' = <[htmlPath := File (cheerio_html doc)]> prepared.
Proof.
  unfold createCombinedHtml. intros Hrun.
  apply bind_ok in Hrun as (tempDir & prepared & Hprepare & Hrun).
  destruct (prepareAssets_frame _ _ _ _ _ Hprepare) as [-> _].
  apply bind_ok in Hrun as (doc & fs2 & Hdoc & Hrun).
  pose proof (combinedDocument_reads epubData prepared prepared ltac:(done)) as Hreads.
  rewrite Hdoc in Hreads. destruct Hreads as [-> _].
  apply bind_ok in Hrun as (u & fs3 & Hwrite & Hrun).
  revert Hrun. run. intros [= <- <-].
  exists prepared, doc. repeat split; try done.
  unfold Fs.writeFile in Hwrite.
  destruct (prepared !! Path.join [tmpName; "combined.html"]) as [[?|]|];
    try done; by injection Hwrite as <-.
Qed.

(** C8.  Two runs of [createCombinedHtml] on the same package model, the
    second one on the file system the first one left and in a temporary
    directory of its own, write the same text: the file at the path the
    first run returns and the file at the path the second run returns hold
    equal strings.  The content documents are taken to lie outside what the
    runs write: no path of a linear spine item is the file the first run
    wrote, a path the second run prepares, or a path below the destination of
    one of its copies (where the copy of a directory puts what the directory
    holds). *)
Theorem assembly_is_deterministic epubData tmp1 tmp2 fs path1 fs1 path2 fs2 :
  createCombinedHtml epubData tmp1 fs = Ok (path1, fs1) ->
  createCombinedHtml epubData tmp2 fs1 = Ok (path2, fs2) ->
  (forall item, item ∈ spine epubData -> linear item = true ->
                spine_path item <> path1 /\
                (spine_path item ∉ assetTargets epubData tmp2) /\
                Forall (fun copied => Fs.below copied (spine_path item) = false)
                  (assetCopies epubData tmp2)) ->
  exists html,
    fs1 !! path1 = Some (File html) /\ fs2 !! path2 = Some (File html).
Proof.
  intros Hrun1 Hrun2 Houtside.
  apply createCombinedHtml_ok in Hrun1 as (prepared1 & doc1 & _ & Hdoc1 & _ & ->).
  apply createCombinedHtml_ok in Hrun2 as (prepared2 & doc2 & Hprepare2 & Hdoc2 & _ & ->).
  destruct (prepareAssets_frame _ _ _ _ _ Hprepare2) as [_ Hframe].
  assert (doc2 = doc1) as ->.
  { pose proof (combinedDocument_reads epubData prepared1 prepared2) as Hreads.
    rewrite Hdoc1 in Hreads. destruct Hreads as [_ Hdoc2'].
    - intros item Hitem Hlinear.
      destruct (Houtside item Hitem Hlinear) as (Hne & Hnot & Hbelow).
      rewrite (Hframe _ Hnot Hbelow). by rewrite lookup_insert_ne.
    - rewrite Hdoc2 in Hdoc2'. by injection Hdoc2' as ->. }
  exists (cheerio_html doc1). by rewrite !lookup_insert_eq.
Qed.

End Determinism.

Lemma assembly_is_deterministic_witness :
  exists html,
    Demo.afterRun "/tmp/a" Demo.tree !! "/tmp/a/combined.html" = Some (File html) /\
    Demo.afterRun "/tmp/b" (Demo.afterRun "/tmp/a" Demo.tree) !! "/tmp/b/combined.html"
    = Some (File html).
Proof.
  apply (assembly_is_deterministic (cheerio := Demo.cheerio) Demo.data
           "/tmp/a" "/tmp/b" Demo.tree).
  - evaluated.
  - evaluated.
  - intros item Hitem _. revert item Hitem.
    apply Forall_forall. apply (bool_decide_unpack _). vm_compute. exact I.
Defined.

(** ** The document written *)

Section DocumentWritten.

Context {jsNumber : JsNumber} {cheerio : Cheerio} {xml2js : Xml2js}.

Implicit Types (fs : FileSystem).

(** The file a successful run writes holds the serialisation of the text
    assembled, parsed and swept. *)
Lemma createCombinedHtml_written epubData tmpName fs htmlPath fs' :
  createCombinedHtml epubData tmpName fs = Ok (htmlPath, fs') ->
  exists prepared html,
    prepareAssets epubData tmpName fs = Ok (tmpName, prepared) /\
    combinedSource epubData prepared = Ok (html, prepared) /\
    fs' !! htmlPath
    = Some (File (cheerio_html
                    (map (Dom.eachElement "img" sweepImagePath) (cheerio_load html)))).
Proof.
  intros Hrun.
  apply createCombinedHtml_ok in Hrun as (prepared & doc & Hprepare & Hdoc & -> & ->).
  unfold combinedDocument in Hdoc.
  apply bind_ok in Hdoc as (html & fs1 & Hsource & Hdoc).
  revert Hdoc. run. intros [= <- ->].
  exists prepared, html. split; [done|]. split; [done|].
  by rewrite lookup_insert_eq.
Qed.

(** C1 (as amended).  When [createCombinedHtml] returns, the file it wrote
    holds the serialisation of the swept parse of this text: the head of the
    document, the opening [body] tag, then, for each linear spine item whose
    path exists and in spine order, one separator (empty or the page-break
    marker) followed by the body content of that item, and the closing tags.
    The body content is the one of the specification: the contents of the
    first [body] element of the content document, image sources rewritten.
    Each such item contributes its body exactly once; an item that is not
    linear, or whose path does not exist, contributes nothing, whatever its
    file holds.  The content documents are read once the assets have been
    prepared, from a file system that differs from the one given only inside
    the temporary directory. *)
Theorem linear_bodies_once_in_spine_order epubData tmpName fs htmlPath fs' :
  createCombinedHtml epubData tmpName fs = Ok (htmlPath, fs') ->
  exists prepared seps,
    prepareAssets epubData tmpName fs = Ok (tmpName, prepared) /\
    (forall q, q ∉ assetTargets epubData tmpName ->
               Forall (fun copied => Fs.below copied q = false)
                 (assetCopies epubData tmpName) ->
               prepared !! q = fs !! q) /\
    length seps = length (assembledItems prepared (spine epubData)) /\
    Forall (fun sep => sep = "" \/ sep = pageBreakDiv) seps /\
    Forall (fun item => linear item = true /\ is_Some (prepared !! spine_path item))
      (assembledItems prepared (spine epubData)) /\
    fs' !! htmlPath
    = Some (File (cheerio_html
                    (map (Dom.eachElement "img" sweepImagePath)
                       (cheerio_load
                          (documentHead epubData +:+ "
</head>
<body>" +:+ Js.concat (zip_with String.append seps
                         (map (itemBody prepared)
                            (assembledItems prepared (spine epubData))))
                           +:+ "</body></html>"))))).
Proof.
  intros Hrun.
  apply createCombinedHtml_written in Hrun as (prepared & html & Hprepare & Hsource & Hfile).
  destruct (combinedSource_ok _ _ _ _ Hsource) as [_ Hvalid].
  destruct (combinedSource_shape epubData prepared Hvalid) as (seps & Hlen & Hseps & Hshape).
  rewrite Hshape in Hsource. injection Hsource as <-.
  exists prepared, seps. split; [done|]. split.
  { by apply (prepareAssets_frame _ _ _ _ _ Hprepare). }
  split; [done|]. split; [done|]. split.
  { apply Forall_forall. intros item Hitem.
    apply list_elem_of_filter in Hitem as [Hkeep _].
    apply Is_true_true, andb_true_iff in Hkeep as [Hlinear Hexists].
    split; [done|]. by apply bool_decide_eq_true in Hexists. }
  rewrite <- (map_ext _ _ (spineBody_itemBody prepared)). exact Hfile.
Qed.




End DocumentWritten.

Lemma linear_bodies_once_in_spine_order_witness :
  exists prepared seps,
    prepareAssets Demo.data "/tmp/a" Demo.tree = Ok ("/tmp/a", prepared) /\
    (forall q, q ∉ assetTargets Demo.data "/tmp/a" ->
               Forall (fun copied => Fs.below copied q = false)
                 (assetCopies Demo.data "/tmp/a") ->
               prepared !! q = Demo.tree !! q) /\
    length seps = length (assembledItems prepared (spine Demo.data)) /\
    Forall (fun sep => sep = "" \/ sep = pageBreakDiv) seps /\
    Forall (fun item => linear item = true /\ is_Some (prepared !! spine_path item))
      (assembledItems prepared (spine Demo.data)) /\
    Demo.afterRun "/tmp/a" Demo.tree !! "/tmp/a/combined.html"
    = Some (File (Demo.serialize
                    (map (Dom.eachElement "img" sweepImagePath)
                       (cheerio_load (Cheerio := Demo.cheerio)
                          (documentHead Demo.data +:+ "
</head>
<body>" +:+ Js.concat (zip_with String.append seps
                         (map (itemBody (cheerio := Demo.cheerio) prepared)
                            (assembledItems prepared (spine Demo.data))))
                           +:+ "</body></html>"))))).
Proof.
  apply (linear_bodies_once_in_spine_order (cheerio := Demo.cheerio) Demo.data
           "/tmp/a" Demo.tree "/tmp/a/combined.html" (Demo.afterRun "/tmp/a" Demo.tree)).
  evaluated.
Defined.

(** C1, as the claim states it, fails: the two chapters of this package are
    distinct linear spine items whose files exist and hold the same text.
    The body content of each of them is the heading and the image below, and
    the document written holds that text twice, not once. *)
Lemma equal_bodies_occur_twice :
  Forall (fun item =>
            itemBody (cheerio := Demo.cheerioMore) Demo.treeTwice item
            = "<h1>One</h1><img src=" +:+ dq +:+ "assets/cover.png" +:+ dq +:+ ">")
    (assembledItems Demo.treeTwice (spine Demo.data)) /\
  map idref (assembledItems Demo.treeTwice (spine Demo.data)) = ["ch1"; "ch2"] /\
  match createCombinedHtml (cheerio := Demo.cheerioMore) Demo.data "/tmp/a"
          Demo.treeTwice with
  | Ok (htmlPath, fs') =>
      match fs' !! htmlPath with
      | Some (File html) =>
          occurrences html
            ("<h1>One</h1><img src=" +:+ dq +:+ "assets/cover.png" +:+ dq +:+ ">") = 2
      | _ => False
      end
  | Throw _ => False
  end.
Proof.
  split; [|split].
  - apply (bool_decide_unpack _). vm_compute. exact I.
  - evaluated.
  - vm_compute. reflexivity.
Qed.



(** * Further properties of the converter *)

(** ** Locating and building the package model *)

Section PackageLocation.

Context {jsNumber : JsNumber} {xml2js : Xml2js}.

Implicit Types (fs : FileSystem).

(** X1.  Without a file or directory at [META-INF/container.xml] below the
    extraction root, [processEpub] throws the error of line 143 and reads
    nothing else. *)
Theorem container_not_found options extractPath fs :
  fs !! Path.join [extractPath; "META-INF"; "container.xml"] = None ->
  processEpub options extractPath fs
  = Throw (Error "Invalid EPUB: container.xml not found").
Proof.
  intros Hnone. unfold processEpub. run.
  rewrite bool_decide_eq_false_2; [done|]. rewrite Hnone. by intros [? ?].
Qed.

(** X2.  When the container names a package document that does not exist
    below the extraction root, [processEpub] throws the error of line 154,
    whose message gives the path as the container has it. *)
Theorem package_document_not_found options extractPath fs containerXml rootfilePath :
  fs !! Path.join [extractPath; "META-INF"; "container.xml"]
    = Some (File containerXml) ->
  parseContainerXml containerXml = Ok rootfilePath ->
  fs !! Path.join [extractPath; rootfilePath] = None ->
  processEpub options extractPath fs
  = Throw (Error ("Invalid EPUB: OPF file not found at " +:+ rootfilePath)).
Proof.
  intros Hcontainer Hparse Hnone. unfold processEpub. run.
  rewrite bool_decide_eq_true_2 by eauto. simpl. rewrite Hcontainer, Hparse.
  rewrite bool_decide_eq_false_2; [done|]. rewrite Hnone. by intros [? ?].
Qed.

Lemma cssLoop_readonly cssFiles : forall combinedCss fs,
  match foldLoop appendCssFile combinedCss cssFiles fs with
  | Ok (_, fs') => fs' = fs
  | Throw _ => True
  end.
Proof.
  induction cssFiles as [|f rest IH]; intros combinedCss fs; [done|].
  simpl foldLoop. run. rewrite appendCssFile_run.
  destruct (fs !! path f) as [[css|]|]; try done; apply IH.
Qed.

Lemma processCssFiles_readonly options cssFiles fs :
  match processCssFiles options cssFiles fs with
  | Ok (_, fs') => fs' = fs
  | Throw _ => True
  end.
Proof.
  unfold processCssFiles. run.
  destruct (preserveOriginalCss options); [|done].
  pose proof (cssLoop_readonly cssFiles "" fs) as Hloop.
  destruct (foldLoop appendCssFile "" cssFiles fs) as [[css fs']|e]; done.
Qed.

Lemma buildEpubData_readonly options opfData opfDir fs :
  match buildEpubData options opfData opfDir fs with
  | Ok (_, fs') => fs' = fs
  | Throw _ => True
  end.
Proof.
  unfold buildEpubData. run.
  destruct (extractManifest opfData opfDir) as [manifest|e]; [|done].
  destruct (extractSpine opfData manifest) as [spine|e]; [|done].
  match goal with
  | |- context [processCssFiles options ?files fs] =>
      pose proof (processCssFiles_readonly options files fs) as Hcss;
      destruct (processCssFiles options files fs) as [[css fs']|e]
  end; done.
Qed.

(** What a successful [processEpub] has found on its way. *)
Lemma processEpub_ok options extractPath fs epubData fs' :
  processEpub options extractPath fs = Ok (epubData, fs') ->
  exists opfData opfDir,
    packageParsed fs extractPath opfData opfDir /\
    buildEpubData options opfData opfDir fs = Ok (epubData, fs').
Proof.
  unfold processEpub. run.
  destruct (fs !! Path.join [extractPath; "META-INF"; "container.xml"])
    as [[containerXml|]|] eqn:Hcontainer; simpl; rewrite ?Hcontainer; try done.
  destruct (parseContainerXml containerXml) as [rootfilePath|e] eqn:Hparse; [|done].
  destruct (fs !! Path.join [extractPath; rootfilePath])
    as [[opfXml|]|] eqn:Hopf; simpl; rewrite ?Hopf; try done.
  destruct (parseOpfXml opfXml) as [opfData|e] eqn:Hparse'; [|done].
  intros Hbuild. exists opfData, (Path.dirname (Path.join [extractPath; rootfilePath])).
  split; [|done]. by exists containerXml, rootfilePath, opfXml.
Qed.

(** X3.  [processEpub] only reads: when it returns, the file system is the
    one it was given. *)
Theorem processEpub_writes_nothing options extractPath fs :
  match processEpub options extractPath fs with
  | Ok (_, fs') => fs' = fs
  | Throw _ => True
  end.
Proof.
  destruct (processEpub options extractPath fs) as [[epubData fs']|e] eqn:Hrun;
    [|done].
  apply processEpub_ok in Hrun as (opfData & opfDir & _ & Hbuild).
  pose proof (buildEpubData_readonly options opfData opfDir fs) as Hread.
  by rewrite Hbuild in Hread.
Qed.

Lemma mapResult_ok {A B} (f : A -> Result B) l ys :
  mapResult f l = Ok ys -> Forall2 (fun x y => f x = Ok y) l ys.
Proof.
  revert ys. induction l as [|x l IH]; intros ys; simpl.
  - intros [= <-]. constructor.
  - destruct (f x) as [y|e] eqn:Hx; [|done].
    destruct (mapResult f l) as [ys'|e]; [|done].
    intros [= <-]. constructor; auto.
Qed.

Lemma findById_Some idref manifest m :
  findById idref manifest = Some m -> m ∈ manifest /\ id m = idref.
Proof.
  induction manifest as [|item rest IH]; simpl; [done|].
  case_bool_decide as Hid.
  - intros [= <-]. split; [by left|done].
  - intros Hfind. destruct (IH Hfind). split; [by right|done].
Qed.

(** X4.  Invariants of a package model that [processEpub] returns: the spine
    has one item for each reference of the package document, in document
    order; every spine item carries the href and path of a manifest entry
    that has its id; manifest and font files are as many as, respectively
    a sublist of, the declared items; and the base path is the directory of
    the package document. *)
Theorem package_model_invariants options extractPath fs epubData fs' :
  processEpub options extractPath fs = Ok (epubData, fs') ->
  exists opfData,
    packageParsed fs extractPath opfData (basePath epubData) /\
    map idref (spine epubData) = map itemref_idref (spine_itemref opfData) /\
    Forall (fun item =>
              exists m, m ∈ manifest epubData /\ id m = idref item /\
                        href m = spine_href item /\ path m = spine_path item)
      (spine epubData) /\
    map id (manifest epubData) = map item_id (manifest_item opfData) /\
    sublist (fontFiles epubData) (manifest epubData).
Proof.
  intros Hrun. apply processEpub_ok in Hrun as (opfData & opfDir & Hparsed & Hbuild).
  exists opfData. revert Hbuild. unfold buildEpubData. run.
  destruct (extractManifest opfData opfDir) as [entries|e] eqn:Hmanifest; [|done].
  apply extractManifest_ok in Hmanifest as [_ ->].
  destruct (extractSpine opfData _) as [items|e] eqn:Hspine; [|done].
  match goal with
  | |- context [processCssFiles options ?files fs] =>
      destruct (processCssFiles options files fs) as [[css fs0]|e]; [|done]
  end.
  intros [= <- <-]. simpl.
  assert (spine_itemref opfData <> []) as Hsome.
  { unfold extractSpine in Hspine. by destruct (spine_itemref opfData). }
  rewrite extractSpine_run in Hspine by done. clear Hsome.
  apply mapResult_ok in Hspine.
  repeat split.
  - done.
  - induction Hspine as [|r item refs items Hr _ IH]; [done|]. simpl.
    rewrite IH. f_equal. unfold resolveItemref in Hr.
    destruct (findById _ _); [|done]. by injection Hr as <-.
  - induction Hspine as [|r item refs items Hr _ IH]; constructor; [|done].
    unfold resolveItemref in Hr.
    destruct (findById _ _) as [m|] eqn:Hfind; [|done].
    injection Hr as <-. simpl.
    apply findById_Some in Hfind as [Hin Hid]. by exists m.
  - apply manifestEntry_ids.
  - apply sublist_filter.
Qed.

End PackageLocation.

Lemma container_not_found_witness :
  processEpub (jsNumber := Demo.number) (xml2js := Demo.xml Demo.opf)
    (Demo.options 1 "" true) "/book" ∅
  = Throw (Error "Invalid EPUB: container.xml not found").
Proof.
  apply (container_not_found (jsNumber := Demo.number) (xml2js := Demo.xml Demo.opf)
           (Demo.options 1 "" true) "/book" ∅).
  reflexivity.
Defined.

Lemma package_document_not_found_witness :
  processEpub (jsNumber := Demo.number) (xml2js := Demo.xml Demo.opf)
    (Demo.options 1 "" true) "/book"
    {[ "/book/META-INF/container.xml" := File "<container/>" ]}
  = Throw (Error ("Invalid EPUB: OPF file not found at " +:+ "OEBPS/content.opf")).
Proof.
  apply (package_document_not_found (jsNumber := Demo.number)
           (xml2js := Demo.xml Demo.opf) (Demo.options 1 "" true) "/book"
           {[ "/book/META-INF/container.xml" := File "<container/>" ]}
           "<container/>" "OEBPS/content.opf"); reflexivity.
Defined.

Lemma package_model_invariants_witness :
  exists opfData,
    packageParsed (xml2js := Demo.xml Demo.opf) Demo.tree "/book" opfData
      (basePath Demo.data) /\
    map idref (spine Demo.data) = map itemref_idref (spine_itemref opfData) /\
    Forall (fun item =>
              exists m, m ∈ manifest Demo.data /\ id m = idref item /\
                        href m = spine_href item /\ path m = spine_path item)
      (spine Demo.data) /\
    map id (manifest Demo.data) = map item_id (manifest_item opfData) /\
    sublist (fontFiles Demo.data) (manifest Demo.data).
Proof.
  apply (package_model_invariants (jsNumber := Demo.number)
           (xml2js := Demo.xml Demo.opf) (Demo.options 1 "" true)
           "/book" Demo.tree Demo.data Demo.tree).
  evaluated.
Defined.

(** ** The stylesheet *)

Section StylesheetAssembly.

Context {jsNumber : JsNumber}.

Implicit Types (fs : FileSystem).

(** X5.  With the original styles preserved and no stylesheet path a
    directory, [processCssFiles] returns, in this order: the content of each
    stylesheet that exists followed by a line end, in manifest order, a
    stylesheet whose path does not exist contributing nothing; the custom
    CSS; the template of lines 280-288.  The file system is left as it is. *)
Theorem stylesheets_in_manifest_order options cssFiles fs :
  preserveOriginalCss options = true ->
  (forall f, f ∈ cssFiles -> fs !! path f <> Some Dir) ->
  processCssFiles options cssFiles fs
  = Ok (Js.concat (map (fun f => match fs !! path f with
                                 | Some (File css) => css +:+ nl
                                 | _ => ""
                                 end) cssFiles)
        +:+ customCss options +:+ pdfCss (numberToString (margin options)), fs).
Proof.
  intros Hpreserve Hfiles. rewrite processCssFiles_run by auto.
  by rewrite Hpreserve.
Qed.

(** X6.  With [preserveOriginalCss] off, [processCssFiles] reads no file: for
    any list of stylesheets and any file system it returns the custom CSS
    followed by the template, and it cannot throw. *)
Theorem original_styles_are_left_out options cssFiles fs :
  preserveOriginalCss options = false ->
  processCssFiles options cssFiles fs
  = Ok (customCss options +:+ pdfCss (numberToString (margin options)), fs).
Proof.
  intros Hpreserve. rewrite processCssFiles_run by (rewrite Hpreserve; done).
  by rewrite Hpreserve.
Qed.

(** X7.  A stylesheet path that exists and is a directory is not skipped:
    with the original styles preserved, [processCssFiles] throws the
    [EISDIR] error of [fs.readFile] for the first such path in manifest
    order. *)
Theorem stylesheet_directory_throws options before f after fs :
  preserveOriginalCss options = true ->
  (forall g, g ∈ before -> fs !! path g <> Some Dir) ->
  fs !! path f = Some Dir ->
  processCssFiles options (before ++ f :: after) fs
  = Throw (SystemError "EISDIR" (path f)).
Proof.
  intros Hpreserve Hbefore Hdir. unfold processCssFiles. run. rewrite Hpreserve.
  assert (forall acc, foldLoop appendCssFile acc (before ++ f :: after) fs
                      = Throw (SystemError "EISDIR" (path f))) as ->; [|done].
  induction before as [|g before IH]; intros acc.
  - simpl. run. by rewrite appendCssFile_run, Hdir.
  - simpl. run. rewrite appendCssFile_run.
    assert (fs !! path g <> Some Dir) as Hg by (apply Hbefore; by left).
    destruct (fs !! path g) as [[css|]|]; try done;
      apply IH; intros; apply Hbefore; by right.
Qed.

End StylesheetAssembly.

Lemma stylesheets_in_manifest_order_witness :
  processCssFiles (jsNumber := Demo.number) (Demo.options 1 "p { }" true)
    [ {| id := "a"; href := "a.css"; mediaType := "text/css"; properties := "";
         path := "/book/OEBPS/ch1.xhtml" |};
      {| id := "b"; href := "b.css"; mediaType := "text/css"; properties := "";
         path := "/book/OEBPS/absent.css" |} ] Demo.tree
  = Ok ((Demo.ch1_text +:+ nl) +:+ "" +:+ "p { }" +:+ pdfCss "1", Demo.tree).
Proof.
  apply (stylesheets_in_manifest_order (jsNumber := Demo.number)
           (Demo.options 1 "p { }" true)).
  - reflexivity.
  - apply Forall_forall. apply (bool_decide_unpack _). vm_compute. exact I.
Defined.

Lemma original_styles_are_left_out_witness :
  processCssFiles (jsNumber := Demo.number) (Demo.options 1 "p { }" false)
    [ {| id := "a"; href := "a.css"; mediaType := "text/css"; properties := "";
         path := "/book/OEBPS" |} ] Demo.treeWithDirectory
  = Ok ("p { }" +:+ pdfCss "1", Demo.treeWithDirectory).
Proof.
  apply (original_styles_are_left_out (jsNumber := Demo.number)
           (Demo.options 1 "p { }" false)).
  reflexivity.
Defined.

Lemma stylesheet_directory_throws_witness :
  processCssFiles (jsNumber := Demo.number) (Demo.options 1 "" true)
    ([ {| id := "a"; href := "a.css"; mediaType := "text/css"; properties := "";
          path := "/book/OEBPS/absent.css" |} ] ++
     {| id := "b"; href := "b.css"; mediaType := "text/css"; properties := "";
        path := "/book/OEBPS/ch2.xhtml" |} :: []) Demo.treeWithDirectory
  = Throw (SystemError "EISDIR" "/book/OEBPS/ch2.xhtml").
Proof.
  apply (stylesheet_directory_throws (jsNumber := Demo.number)
           (Demo.options 1 "" true)).
  - reflexivity.
  - apply Forall_forall. apply (bool_decide_unpack _). vm_compute. exact I.
  - reflexivity.
Defined.

(** ** The rewriting of references, continued *)

Section UrlScan.

Implicit Types (s rest : string).

(** X8.  The bound on the scan of [processFontPaths] is never reached: the
    scan with any number of steps above the length of the stylesheet gives
    the result of [processFontPaths], so every character is either copied
    or part of a rewritten reference. *)
Theorem processFontPaths_scans_to_the_end css fontDir fuel :
  String.length css < fuel ->
  UrlRegex.replaceAll fuel
    (fun fontPath => "url('" +:+ fontDir +:+ Path.basename fontPath +:+ "')") css
  = processFontPaths css fontDir.
Proof.
  intros Hfuel. unfold processFontPaths.
  apply (replaceAll_fuel _ (String.length css)); lia.
Qed.

(** X9.  A stylesheet that holds no [url(] is returned as it is. *)
Theorem stylesheet_without_references_is_kept css fontDir :
  Js.includes css "url(" = false ->
  processFontPaths css fontDir = css.
Proof.
  intros Hnone. unfold processFontPaths.
  rewrite <- (app_empty_r css) at 2.
  rewrite replaceAll_text by (auto; lia).
  by rewrite replaceAll_empty, app_empty_r.
Qed.

End UrlScan.

Lemma processFontPaths_scans_to_the_end_witness :
  UrlRegex.replaceAll 100
    (fun fontPath => "url('" +:+ "assets/" +:+ Path.basename fontPath +:+ "')")
    "a { src: url(f/a.ttf) }"
  = processFontPaths "a { src: url(f/a.ttf) }" "assets/".
Proof.
  apply (processFontPaths_scans_to_the_end "a { src: url(f/a.ttf) }" "assets/" 100).
  simpl. lia.
Defined.

Lemma stylesheet_without_references_is_kept_witness :
  processFontPaths (pdfCss "1") "assets/" = pdfCss "1".
Proof.
  apply (stylesheet_without_references_is_kept (pdfCss "1") "assets/").
  reflexivity.
Defined.

(** ** The two image passes *)

Section ImagePasses.

Context {cheerio : Cheerio}.

Implicit Types (attribs : list (string * string)) (n : node) (doc : list node).

Lemma getAttr_setAttr_ne k name value attribs :
  k <> name ->
  Dom.getAttr k (Dom.setAttr name value attribs) = Dom.getAttr k attribs.
Proof.
  intros Hk. induction attribs as [|[k' v] rest IH]; simpl.
  - by rewrite bool_decide_eq_false_2 by congruence.
  - destruct (bool_decide (k' = name)) eqn:Hname; simpl.
    + apply bool_decide_eq_true in Hname as ->.
      by rewrite !bool_decide_eq_false_2 by congruence.
    + by rewrite IH.
Qed.

Lemma setAttr_keys name value attribs :
  is_Some (Dom.getAttr name attribs) ->
  map fst (Dom.setAttr name value attribs) = map fst attribs.
Proof.
  induction attribs as [|[k v] rest IH]; simpl.
  - by intros [? ?].
  - case_bool_decide; simpl; [done|]. intros Hsome. by rewrite IH.
Qed.

Lemma assets_source_is_swept name :
  Js.truthy ("assets/" +:+ name) && negb (Js.startsWith ("assets/" +:+ name) "assets/")
  = false.
Proof. unfold Js.startsWith. rewrite prefix_app. apply andb_false_r. Qed.

Lemma sweep_after_fix attribs :
  sweepImagePath (fixImagePath attribs) = fixImagePath attribs.
Proof.
  unfold fixImagePath.
  destruct (Dom.getAttr "src" attribs) as [src|] eqn:Hsrc.
  - destruct (Js.truthy src) eqn:Htruthy.
    + unfold sweepImagePath.
      rewrite getAttr_setAttr by (by rewrite Hsrc).
      by rewrite assets_source_is_swept.
    + unfold sweepImagePath. by rewrite Hsrc, Htruthy.
  - unfold sweepImagePath. by rewrite Hsrc.
Qed.

Lemma sweep_after_sweep attribs :
  sweepImagePath (sweepImagePath attribs) = sweepImagePath attribs.
Proof.
  unfold sweepImagePath at 2 3.
  destruct (Dom.getAttr "src" attribs) as [src|] eqn:Hsrc.
  - destruct (Js.truthy src && negb (Js.startsWith src "assets/")) eqn:Hcond.
    + unfold sweepImagePath.
      rewrite getAttr_setAttr by (by rewrite Hsrc).
      by rewrite assets_source_is_swept.
    + unfold sweepImagePath. by rewrite Hsrc, Hcond.
  - unfold sweepImagePath. by rewrite Hsrc.
Qed.

Lemma eachElement_twice tag f g n :
  (forall attribs, f (g attribs) = g attribs) ->
  Dom.eachElement tag f (Dom.eachElement tag g n) = Dom.eachElement tag g n.
Proof.
  intros Hfg.
  induction n as [data|data|data|name attribs children IH] using node_ind';
    try done.
  simpl. f_equal.
  - case_bool_decide; [apply Hfg|done].
  - rewrite map_map. induction IH as [|c cs Hc _ IHcs]; [done|].
    simpl. by rewrite Hc, IHcs.
Qed.

(** X10.  The final sweep changes nothing in a tree the first pass has gone
    through: a source the first pass wrote starts with [assets/], and a
    source it kept is empty. *)
Theorem sweep_keeps_the_first_pass doc :
  map (Dom.eachElement "img" sweepImagePath)
    (map (Dom.eachElement "img" fixImagePath) doc)
  = map (Dom.eachElement "img" fixImagePath) doc.
Proof.
  rewrite map_map. apply map_ext. intros n.
  apply eachElement_twice, sweep_after_fix.
Qed.

(** X11.  The final sweep is idempotent: sweeping a swept tree changes
    nothing. *)
Theorem sweep_is_idempotent doc :
  map (Dom.eachElement "img" sweepImagePath)
    (map (Dom.eachElement "img" sweepImagePath) doc)
  = map (Dom.eachElement "img" sweepImagePath) doc.
Proof.
  rewrite map_map. apply map_ext. intros n.
  apply eachElement_twice, sweep_after_sweep.
Qed.

Lemma blankSources_setAttr value attribs :
  is_Some (Dom.getAttr "src" attribs) ->
  blankSources (Dom.setAttr "src" value attribs) = blankSources attribs.
Proof.
  induction attribs as [|[k v] rest IH]; simpl.
  - by intros [? ?].
  - case_bool_decide as Hk; simpl.
    + intros _. by rewrite !bool_decide_eq_true_2.
    + intros Hsome. rewrite bool_decide_eq_false_2 by done. by rewrite IH.
Qed.

Lemma blankSources_fixImagePath attribs :
  blankSources (fixImagePath attribs) = blankSources attribs.
Proof.
  unfold fixImagePath.
  destruct (Dom.getAttr "src" attribs) as [src|] eqn:Hsrc; [|done].
  destruct (Js.truthy src); [|done].
  apply blankSources_setAttr. by rewrite Hsrc.
Qed.

Lemma blankSources_sweepImagePath attribs :
  blankSources (sweepImagePath attribs) = blankSources attribs.
Proof.
  unfold sweepImagePath.
  destruct (Dom.getAttr "src" attribs) as [src|] eqn:Hsrc; [|done].
  destruct (Js.truthy src && negb (Js.startsWith src "assets/")); [|done].
  apply blankSources_setAttr. by rewrite Hsrc.
Qed.

Lemma withoutImageSources_eachElement f n :
  (forall attribs, blankSources (f attribs) = blankSources attribs) ->
  withoutImageSources (Dom.eachElement "img" f n) = withoutImageSources n.
Proof.
  intros Hf.
  induction n as [data|data|data|name attribs children IH] using node_ind';
    try done.
  simpl. f_equal.
  - case_bool_decide; [apply Hf|done].
  - rewrite map_map. induction IH as [|c cs Hc _ IHcs]; [done|].
    simpl. by rewrite Hc, IHcs.
Qed.

(** X12.  The two passes touch the values of the [src] attributes of [img]
    elements and nothing else: with those values blanked, a document that
    has gone through a pass is the document it was.  Texts, comments, the
    elements and their order, the names and the order of all attributes and
    the values of all attributes other than an image source are as they
    were. *)
Theorem passes_touch_image_sources_only doc :
  map withoutImageSources (map (Dom.eachElement "img" fixImagePath) doc)
  = map withoutImageSources doc /\
  map withoutImageSources (map (Dom.eachElement "img" sweepImagePath) doc)
  = map withoutImageSources doc.
Proof.
  split; rewrite map_map; apply map_ext; intros n;
    apply withoutImageSources_eachElement.
  - apply blankSources_fixImagePath.
  - apply blankSources_sweepImagePath.
Qed.

Lemma spineStep_sameBody fs1 fs2 html item :
  sameBody fs1 fs2 item -> spineStep fs1 html item = spineStep fs2 html item.
Proof.
  unfold sameBody, spineStep, spineBody.
  destruct (fs1 !! spine_path item) as [[content1|]|],
           (fs2 !! spine_path item) as [[content2|]|]; try done.
  intros Hbody. rewrite !bodyContent_documentBody. unfold documentBody.
  by rewrite Hbody.
Qed.

Lemma spineLoop_sameBody spine fs1 fs2 : forall html,
  (forall item, item ∈ spine -> linear item = true -> sameBody fs1 fs2 item) ->
  match foldLoop appendSpineItem html spine fs1,
        foldLoop appendSpineItem html spine fs2 with
  | Ok (out1, _), Ok (out2, _) => out1 = out2
  | Throw e1, Throw e2 => e1 = e2
  | _, _ => False
  end.
Proof.
  induction spine as [|item rest IH]; intros html Hsame; [done|].
  assert (forall h, match foldLoop appendSpineItem h rest fs1,
                          foldLoop appendSpineItem h rest fs2 with
                    | Ok (out1, _), Ok (out2, _) => out1 = out2
                    | Throw e1, Throw e2 => e1 = e2
                    | _, _ => False
                    end) as Hrest.
  { intros h. apply IH. intros it Hit. apply Hsame. by right. }
  simpl foldLoop. run. rewrite !appendSpineItem_run.
  destruct (linear item) eqn:Hlinear; [|apply Hrest].
  pose proof (Hsame item ltac:(by left) Hlinear) as Hitem.
  rewrite (spineStep_sameBody fs1 fs2 html item Hitem).
  unfold sameBody in Hitem.
  destruct (fs1 !! spine_path item) as [[content1|]|],
           (fs2 !! spine_path item) as [[content2|]|]; try done; apply Hrest.
Qed.

(** X13.  What lies outside the first [body] element of a content document
    does not reach the combined document: on two file systems that hold, at
    the path of every linear spine item, files parsed into documents whose
    first [body] elements hold the same (or both nothing, or both a
    directory), the combined document is the same, and so is the exception
    when assembly throws. *)
Theorem outside_the_body_is_dropped epubData fs1 fs2 :
  (forall item, item ∈ spine epubData -> linear item = true ->
                sameBody fs1 fs2 item) ->
  match combinedDocument epubData fs1, combinedDocument epubData fs2 with
  | Ok (doc1, _), Ok (doc2, _) => doc1 = doc2
  | Throw e1, Throw e2 => e1 = e2
  | _, _ => False
  end.
Proof.
  intros Hsame. unfold combinedDocument, combinedSource. run.
  pose proof (spineLoop_sameBody (spine epubData) fs1 fs2
                (htmlShell (title (metadata epubData))
                   (processFontPaths (cssContent epubData) "assets/")) Hsame)
    as Hloop.
  destruct (foldLoop appendSpineItem _ (spine epubData) fs1) as [[out1 fs1']|e1],
           (foldLoop appendSpineItem _ (spine epubData) fs2) as [[out2 fs2']|e2];
    try done.
  by rewrite Hloop.
Qed.

End ImagePasses.

Lemma outside_the_body_is_dropped_witness :
  match combinedDocument (cheerio := Demo.cheerioMore) Demo.data Demo.tree,
        combinedDocument (cheerio := Demo.cheerioMore) Demo.data Demo.treeTitled with
  | Ok (doc1, _), Ok (doc2, _) => doc1 = doc2
  | Throw e1, Throw e2 => e1 = e2
  | _, _ => False
  end.
Proof.
  apply (outside_the_body_is_dropped (cheerio := Demo.cheerioMore) Demo.data
           Demo.tree Demo.treeTitled).
  intros item Hitem _. revert item Hitem. apply Forall_forall.
  constructor; [vm_compute; reflexivity|].
  constructor; [vm_compute; reflexivity|].
  constructor; [vm_compute; reflexivity|].
  constructor.
Defined.

(** ** The flat asset namespace *)

Section AssetNames.

Implicit Types (s t p : string).

Lemma rev_app_chars s t :
  String.list_ascii_of_string (String.rev_app s t)
  = reverse (String.list_ascii_of_string s) ++ String.list_ascii_of_string t.
Proof.
  revert t. induction s as [|c s IH]; intros t; [done|].
  simpl. rewrite IH, reverse_cons, <- app_assoc. done.
Qed.

Lemma untilSlash_chars s c :
  c ∈ String.list_ascii_of_string (Path.untilSlash s) -> c <> "/"%char.
Proof.
  induction s as [|d s IH]; simpl; [by intros ?%elem_of_nil|].
  unfold Path.isSlash. case_bool_decide as Hd; simpl; [by intros ?%elem_of_nil|].
  intros [->|Hin]%elem_of_cons; auto.
Qed.

Lemma basename_chars p c :
  c ∈ String.list_ascii_of_string (Path.basename p) -> c <> "/"%char.
Proof.
  unfold Path.basename, String.rev. rewrite rev_app_chars, app_nil_r.
  rewrite elem_of_reverse. apply untilSlash_chars.
Qed.

Lemma includes_separator s :
  (forall c, c ∈ String.list_ascii_of_string s -> c <> "/"%char) ->
  Js.includes s "/" = false.
Proof.
  induction s as [|c s IH]; intros Hs; [done|].
  rewrite includes_unfold, prefix_cons.
  rewrite bool_decide_eq_false_2.
  - apply IH. intros d Hd. apply Hs. simpl. by right.
  - intros Heq. apply (Hs c); [simpl; by left|done].
Qed.

(** X14.  The first image pass gives every non-empty source the form
    [assets/<name>] with a name that holds no separator: the directory part
    of the original path is dropped, so images of different directories that
    share a file name get the same source. *)
Theorem fixed_sources_are_flat attribs src :
  Dom.getAttr "src" attribs = Some src ->
  Js.truthy src = true ->
  exists name,
    Dom.getAttr "src" (fixImagePath attribs) = Some ("assets/" +:+ name) /\
    Js.includes name "/" = false /\
    name = Path.basename src.
Proof.
  intros Hsrc Htruthy. exists (Path.basename src).
  split; [|split; [|done]].
  - rewrite getAttr_fixImagePath, Hsrc. simpl. unfold fixedSource. by rewrite Htruthy.
  - apply includes_separator. intros c. apply basename_chars.
Qed.

End AssetNames.

Lemma fixed_sources_are_flat_witness :
  exists name,
    Dom.getAttr "src" (fixImagePath [("alt", "cover"); ("src", "../images/cover.png")])
    = Some ("assets/" +:+ name) /\
    Js.includes name "/" = false /\
    name = Path.basename "../images/cover.png".
Proof.
  apply (fixed_sources_are_flat [("alt", "cover"); ("src", "../images/cover.png")]
           "../images/cover.png"); reflexivity.
Defined.

(** ** Page-break markers *)

Section PageBreaks.

Context {cheerio : Cheerio}.

Implicit Types (fs : FileSystem) (html : string).

Lemma includes_app_l a b p :
  Js.includes a p = true -> Js.includes (a +:+ b) p = true.
Proof.
  induction a as [|c a IH]; intros Hin.
  - destruct p; [|done]. rewrite includes_unfold, prefix_empty. done.
  - rewrite includes_unfold in Hin. rewrite app_cons, includes_unfold, <- app_cons.
    destruct (String.prefix p (String c a)) eqn:Hp.
    + rewrite prefix_app_l by (by apply prefix_length). by rewrite Hp.
    + rewrite (IH Hin). apply orb_true_r.
Qed.

Lemma steps_with_markers fs spine : forall html,
  Js.includes html "</section>" = true ->
  foldl (spineStep fs) html spine
  = html +:+ Js.concat (map (fun item => pageBreakDiv +:+ spineBody fs item)
                          (assembledItems fs spine)).
Proof.
  induction spine as [|item rest IH]; intros html Hsection.
  - simpl. by rewrite app_empty_r.
  - simpl foldl. unfold assembledItems. rewrite filter_cons.
    fold (assembledItems fs rest). unfold spineStep at 2.
    destruct (linear item && bool_decide (is_Some (fs !! spine_path item))).
    + rewrite decide_True by done. rewrite Hsection.
      rewrite IH by (by rewrite app_assoc'; apply includes_app_l).
      simpl. by rewrite !app_assoc'.
    + rewrite decide_False by (by intros []). by apply IH.
Qed.

Lemma steps_without_markers fs spine : forall html,
  Js.includes (html +:+ Js.concat (map (spineBody fs) (assembledItems fs spine)))
    "</section>" = false ->
  foldl (spineStep fs) html spine
  = html +:+ Js.concat (map (spineBody fs) (assembledItems fs spine)).
Proof.
  induction spine as [|item rest IH]; intros html Hnone.
  - simpl. by rewrite app_empty_r.
  - simpl foldl. revert Hnone. unfold assembledItems. rewrite filter_cons.
    fold (assembledItems fs rest).
    destruct (linear item && bool_decide (is_Some (fs !! spine_path item)))
      eqn:Hkeep.
    + rewrite decide_True by done. simpl. intros Hnone.
      destruct (Js.includes html "</section>") eqn:Hhtml.
      { by rewrite (includes_app_l _ _ _ Hhtml) in Hnone. }
      assert (spineStep fs html item = html +:+ spineBody fs item) as ->.
      { unfold spineStep. by rewrite Hkeep, Hhtml. }
      rewrite IH by (by rewrite app_assoc'). by rewrite app_assoc'.
    + rewrite decide_False by (by intros []). intros Hnone.
      assert (spineStep fs html item = html) as ->.
      { unfold spineStep. by rewrite Hkeep. }
      by apply IH.
Qed.

(** X15.  Once the text accumulated holds a closing [section] tag, the loop
    puts exactly one page-break marker in front of the body of every item it
    appends from then on. *)
Theorem markers_once_a_section_is_closed fs spine html :
  Js.includes html "</section>" = true ->
  (forall item, item ∈ spine -> linear item = true ->
                fs !! spine_path item <> Some Dir) ->
  foldLoop appendSpineItem html spine fs
  = Ok (html +:+ Js.concat (map (fun item => pageBreakDiv +:+ spineBody fs item)
                              (assembledItems fs spine)), fs).
Proof.
  intros Hsection Hvalid. rewrite spineLoop_run by done.
  by rewrite steps_with_markers.
Qed.

(** X16.  When neither the text the loop starts from nor the bodies it
    appends hold a closing [section] tag, also not across their joints, the
    loop puts in no page-break marker at all: the bodies follow one another
    directly. *)
Theorem no_marker_without_a_section fs spine html :
  Js.includes (html +:+ Js.concat (map (spineBody fs) (assembledItems fs spine)))
    "</section>" = false ->
  (forall item, item ∈ spine -> linear item = true ->
                fs !! spine_path item <> Some Dir) ->
  foldLoop appendSpineItem html spine fs
  = Ok (html +:+ Js.concat (map (spineBody fs) (assembledItems fs spine)), fs).
Proof.
  intros Hnone Hvalid. rewrite spineLoop_run by done.
  by rewrite steps_without_markers.
Qed.

End PageBreaks.

Lemma markers_once_a_section_is_closed_witness :
  foldLoop (appendSpineItem (cheerio := Demo.cheerio))
    "<section>Preface</section>" (spine Demo.data) Demo.tree
  = Ok ("<section>Preface</section>" +:+
        Js.concat (map (fun item => pageBreakDiv +:+
                                    spineBody (cheerio := Demo.cheerio) Demo.tree item)
                     (assembledItems Demo.tree (spine Demo.data))), Demo.tree).
Proof.
  apply (markers_once_a_section_is_closed (cheerio := Demo.cheerio) Demo.tree
           (spine Demo.data) "<section>Preface</section>").
  - reflexivity.
  - intros item Hitem _. revert item Hitem.
    apply Forall_forall. apply (bool_decide_unpack _). vm_compute. exact I.
Defined.

Lemma no_marker_without_a_section_witness :
  foldLoop (appendSpineItem (cheerio := Demo.cheerio))
    "<body>" (spine Demo.data) Demo.tree
  = Ok ("<body>" +:+
        Js.concat (map (spineBody (cheerio := Demo.cheerio) Demo.tree)
                     (assembledItems Demo.tree (spine Demo.data))), Demo.tree).
Proof.
  apply (no_marker_without_a_section (cheerio := Demo.cheerio) Demo.tree
           (spine Demo.data) "<body>").
  - evaluated.
  - intros item Hitem _. revert item Hitem.
    apply Forall_forall. apply (bool_decide_unpack _). vm_compute. exact I.
Defined.

(** ** The files of a run *)

Section FilesOfARun.

Context {cheerio : Cheerio}.

Implicit Types (fs : FileSystem) (epubData : EpubData).

Lemma copies_run assetsDir files : forall fs u fs',
  forEach (copyAsset assetsDir) files fs = Ok (u, fs') ->
  (forall q, is_Some (fs !! q) -> is_Some (fs' !! q)) /\
  (forall f, f ∈ files ->
     is_Some (fs' !! Path.join [assetsDir; Path.basename (href f)])) /\
  (forall f, f ∈ files ->
     path f ∉ map (fun g => Path.join [assetsDir; Path.basename (href g)]) files ->
     Forall (fun copied => Fs.below copied (path f) = false)
       (map (fun g => Path.join [assetsDir; Path.basename (href g)]) files) ->
     is_Some (fs !! path f)).
Proof.
  induction files as [|g rest IH]; intros fs u fs' Hrun.
  - simpl in Hrun. revert Hrun. run. intros [= _ <-].
    repeat split; [done|by intros f ?%elem_of_nil..].
  - simpl in Hrun. apply bind_ok in Hrun as (u1 & fs1 & Hcopy & Hrest).
    pose proof (copy_frame _ _ _ _ _ Hcopy) as Hframe.
    apply copy_run in Hcopy as (Hsrc & Hdest & Hmono1).
    destruct (IH _ _ _ Hrest) as (Hmono & Hdests & Hsources).
    split; [by auto|]. split.
    + intros f [->|Hf]%elem_of_cons; [by apply Hmono|by apply Hdests].
    + intros f [->|Hf]%elem_of_cons Hnot Hbelow; [done|].
      simpl in Hnot, Hbelow. apply not_elem_of_cons in Hnot as [Hne Hnot].
      apply Forall_cons in Hbelow as [Hhere Hbelow].
      rewrite <- (Hframe _ Hne Hhere). by apply Hsources.
Qed.

(** X17.  A successful run of [createCombinedHtml] returns the path
    [combined.html] below the temporary directory and changes the file
    system only there, at the temporary directory, at its [assets]
    directory, and at and below the destinations of the copies of the fonts
    and images (a font or image that is a directory is copied with what it
    holds): every other path, the extracted package included, holds what it
    held. *)
Theorem createCombinedHtml_leaves_the_rest epubData tmpName fs htmlPath fs' :
  createCombinedHtml epubData tmpName fs = Ok (htmlPath, fs') ->
  htmlPath = Path.join [tmpName; "combined.html"] /\
  forall q, q ∉ assetTargets epubData tmpName ->
            Forall (fun copied => Fs.below copied q = false)
              (assetCopies epubData tmpName) ->
            q <> htmlPath ->
            fs' !! q = fs !! q.
Proof.
  intros Hrun.
  apply createCombinedHtml_ok in Hrun as (prepared & doc & Hprepare & _ & Hpath & ->).
  split; [done|]. intros q Hq Hbelow Hne.
  rewrite lookup_insert_ne by done.
  by apply (prepareAssets_frame _ _ _ _ _ Hprepare).
Qed.

(** X18.  A font or image of the package whose file is missing ends the run
    with an exception: unlike a missing stylesheet or content document, a
    missing asset is not skipped.  (The file is taken to be looked for
    outside what the run writes in its temporary directory: at none of the
    paths it prepares and below none of the destinations of its copies.) *)
Theorem missing_asset_is_fatal epubData tmpName fs f :
  f ∈ fontFiles epubData ++
      filter (fun item => Js.startsWith (mediaType item) "image/") (manifest epubData) ->
  fs !! path f = None ->
  path f ∉ assetTargets epubData tmpName ->
  Forall (fun copied => Fs.below copied (path f) = false)
    (assetCopies epubData tmpName) ->
  exists e, createCombinedHtml epubData tmpName fs = Throw e.
Proof.
  intros Hf Hnone Houtside Hbelow.
  destruct (createCombinedHtml epubData tmpName fs) as [[htmlPath fs']|e] eqn:Hrun;
    [exfalso|by exists e].
  apply createCombinedHtml_ok in Hrun as (prepared & doc & Hprepare & _).
  unfold prepareAssets in Hprepare.
  apply bind_ok in Hprepare as (t & fs1 & Htmp & Hprepare).
  apply tmpDir_frame in Htmp as [-> Htmp].
  apply bind_ok in Hprepare as (u2 & fs2 & Hmkdir & Hprepare).
  apply bind_ok in Hprepare as (u3 & fs3 & Hfonts & Hprepare).
  apply bind_ok in Hprepare as (u4 & fs4 & Himages & _).
  unfold assetTargets in Houtside.
  apply not_elem_of_cons in Houtside as [Hq1 Houtside].
  apply not_elem_of_cons in Houtside as [Hq2 Houtside].
  rewrite map_app in Houtside. apply not_elem_of_app in Houtside as [Hq3 Hq4].
  unfold assetCopies in Hbelow. rewrite map_app in Hbelow.
  apply Forall_app in Hbelow as [Hb3 Hb4].
  assert (fs2 !! path f = None) as Hfs2.
  { rewrite (mkdir_frame _ _ _ _ Hmkdir _ Hq2). by rewrite Htmp. }
  apply elem_of_app in Hf as [Hf|Hf].
  - destruct (copies_run _ _ _ _ _ Hfonts) as (_ & _ & Hsources).
    destruct (Hsources f Hf Hq3 Hb3) as [e He]. congruence.
  - destruct (copies_run _ _ _ _ _ Himages) as (_ & _ & Hsources).
    destruct (Hsources f Hf Hq4 Hb4) as [e He].
    rewrite (copies_frame _ _ _ _ _ Hfonts _ Hq3 Hb3) in He. congruence.
Qed.

(** X19.  After a successful run the temporary directory, its [assets]
    directory and, for every font and image of the package, the path
    [assets/<basename of its href>] all exist, and the path returned holds a
    regular file: what the rewritten references name is there. *)
Theorem assets_are_in_place epubData tmpName fs htmlPath fs' :
  createCombinedHtml epubData tmpName fs = Ok (htmlPath, fs') ->
  Forall (fun q => is_Some (fs' !! q)) (assetTargets epubData tmpName) /\
  exists html, fs' !! htmlPath = Some (File html).
Proof.
  intros Hrun.
  apply createCombinedHtml_ok in Hrun as (prepared & doc & Hprepare & _ & -> & ->).
  split; [|exists (cheerio_html doc); by rewrite lookup_insert_eq].
  assert (Forall (fun q => is_Some (prepared !! q)) (assetTargets epubData tmpName))
    as Hprepared.
  { unfold prepareAssets in Hprepare.
    apply bind_ok in Hprepare as (t & fs1 & Htmp & Hprepare).
    assert (t = tmpName /\ is_Some (fs1 !! tmpName)) as [-> Htmp1].
    { unfold Fs.tmpDir in Htmp. destruct (fs !! tmpName); [done|].
      injection Htmp as <- <-. rewrite lookup_insert_eq. by eauto. }
    apply bind_ok in Hprepare as (u2 & fs2 & Hmkdir & Hprepare).
    assert (is_Some (fs2 !! Path.join [tmpName; "assets"]) /\
            forall q, is_Some (fs1 !! q) -> is_Some (fs2 !! q)) as [Hassets Hmono2].
    { unfold Fs.mkdir in Hmkdir.
      destruct (fs1 !! Path.join [tmpName; "assets"]) eqn:Hfree; [done|].
      assert (fs2 = <[Path.join [tmpName; "assets"] := Dir]> fs1) as -> by congruence.
      split; [rewrite lookup_insert_eq; by eauto|].
      intros q Hq. destruct (decide (q = Path.join [tmpName; "assets"])) as [->|Hne].
      - rewrite lookup_insert_eq. by eauto.
      - by rewrite lookup_insert_ne. }
    apply bind_ok in Hprepare as (u3 & fs3 & Hfonts & Hprepare).
    apply bind_ok in Hprepare as (u4 & fs4 & Himages & Hprepare).
    revert Hprepare. run. intros [= <-].
    destruct (copies_run _ _ _ _ _ Hfonts) as (Hmono3 & Hfontdests & _).
    destruct (copies_run _ _ _ _ _ Himages) as (Hmono4 & Himagedests & _).
    unfold assetTargets. constructor; [by auto|]. constructor; [by auto|].
    rewrite map_app. apply Forall_app. split.
    - apply Forall_forall. intros q (f & -> & Hf)%list_elem_of_fmap. by auto.
    - apply Forall_forall. intros q (f & -> & Hf)%list_elem_of_fmap. by auto. }
  eapply Forall_impl; [exact Hprepared|]. simpl. intros q Hq.
  destruct (decide (q = Path.join [tmpName; "combined.html"])) as [->|Hne].
  - rewrite lookup_insert_eq. by eauto.
  - by rewrite lookup_insert_ne.
Qed.

End FilesOfARun.

Lemma createCombinedHtml_leaves_the_rest_witness :
  "/tmp/a/combined.html" = Path.join ["/tmp/a"; "combined.html"] /\
  forall q, q ∉ assetTargets Demo.data "/tmp/a" ->
            Forall (fun copied => Fs.below copied q = false)
              (assetCopies Demo.data "/tmp/a") ->
            q <> "/tmp/a/combined.html" ->
            Demo.afterRun "/tmp/a" Demo.tree !! q = Demo.tree !! q.
Proof.
  apply (createCombinedHtml_leaves_the_rest (cheerio := Demo.cheerio) Demo.data
           "/tmp/a" Demo.tree).
  evaluated.
Defined.

Lemma missing_asset_is_fatal_witness :
  exists e,
    createCombinedHtml (cheerio := Demo.cheerio) Demo.data "/tmp/a"
      (delete "/book/OEBPS/fonts/a.ttf" Demo.tree) = Throw e.
Proof.
  apply (missing_asset_is_fatal (cheerio := Demo.cheerio) Demo.data "/tmp/a"
           (delete "/book/OEBPS/fonts/a.ttf" Demo.tree)
           {| id := "font"; href := "fonts/a.ttf";
              mediaType := "application/x-font-ttf"; properties := "";
              path := "/book/OEBPS/fonts/a.ttf" |}).
  - cbn. left.
  - reflexivity.
  - apply (bool_decide_unpack _). vm_compute. exact I.
  - apply (bool_decide_unpack _). vm_compute. exact I.
Defined.

Lemma assets_are_in_place_witness :
  Forall (fun q => is_Some (Demo.afterRun "/tmp/a" Demo.tree !! q))
    (assetTargets Demo.data "/tmp/a") /\
  exists html, Demo.afterRun "/tmp/a" Demo.tree !! "/tmp/a/combined.html"
               = Some (File html).
Proof.
  apply (assets_are_in_place (cheerio := Demo.cheerio) Demo.data "/tmp/a" Demo.tree).
  evaluated.
Defined.

(** ** Assets that are directories *)

Section DirectoryAssets.

Context {cheerio : Cheerio}.

Implicit Types (fs : FileSystem) (epubData : EpubData).

Lemma sameKind_refl e : sameKind e e.
Proof. by destruct e. Qed.

Lemma sameKind_trans e1 e2 e3 : sameKind e1 e2 -> sameKind e2 e3 -> sameKind e1 e3.
Proof. by destruct e1, e2, e3. Qed.

Lemma kept_refl fs : kept fs fs.
Proof. intros q e Hq. exists e. split; [done|apply sameKind_refl]. Qed.

Lemma kept_trans fs1 fs2 fs3 : kept fs1 fs2 -> kept fs2 fs3 -> kept fs1 fs3.
Proof.
  intros H12 H23 q e Hq. destruct (H12 _ _ Hq) as (e2 & Hq2 & Hk2).
  destruct (H23 _ _ Hq2) as (e3 & Hq3 & Hk3). exists e3.
  split; [done|]. by apply (sameKind_trans _ e2).
Qed.

Lemma kept_insert fs p e :
  (forall e0, fs !! p = Some e0 -> sameKind e0 e) -> kept fs (<[p := e]> fs).
Proof.
  intros Hp q e0 Hq. destruct (decide (q = p)) as [->|Hne].
  - exists e. rewrite lookup_insert_eq. split; [done|by apply Hp].
  - exists e0. rewrite lookup_insert_ne by done. split; [done|apply sameKind_refl].
Qed.

Lemma overwriteError_None src dest e held e0 :
  Fs.overwriteError src dest e held = None -> held = Some e0 -> sameKind e0 e.
Proof. intros Hnone ->. by destruct e, e0. Qed.

Lemma subtreeError_None src dest fs items :
  Fs.subtreeError src dest fs items = None ->
  forall item, item ∈ items ->
    Fs.overwriteError (src +:+ item.1) (dest +:+ item.1) item.2
      (fs !! (dest +:+ item.1)) = None.
Proof.
  induction items as [|[rest e] items IH]; simpl; [by intros _ item ?%elem_of_nil|].
  destruct (Fs.overwriteError _ _ e (fs !! (dest +:+ rest))) eqn:Hhere; [done|].
  intros Hitems item [->|Hitem]%elem_of_cons; [done|by apply IH].
Qed.

Lemma putSubtree_kept dest items fs0 fs :
  (forall item, item ∈ items ->
     forall e0, fs0 !! (dest +:+ item.1) = Some e0 -> sameKind e0 item.2) ->
  (forall q e0, fs0 !! q = Some e0 -> exists e', fs !! q = Some e' /\ sameKind e0 e') ->
  forall q e0, fs0 !! q = Some e0 ->
    exists e', Fs.putSubtree dest items fs !! q = Some e' /\ sameKind e0 e'.
Proof.
  intros Hitems Hbase. induction items as [|item items IH]; [done|].
  intros q e0 Hq. simpl.
  destruct (decide (q = dest +:+ item.1)) as [->|Hne].
  - exists item.2. rewrite lookup_insert_eq. split; [done|].
    apply (Hitems item); [by left|done].
  - rewrite lookup_insert_ne by done. apply IH; [|done].
    intros it Hit. apply Hitems. by right.
Qed.

Lemma putSubtree_hit dest items fs item :
  item ∈ items ->
  exists e, Fs.putSubtree dest items fs !! (dest +:+ item.1) = Some e /\
            exists item', item' ∈ items /\ item'.1 = item.1 /\ item'.2 = e.
Proof.
  induction items as [|it items IH]; [by intros ?%elem_of_nil|].
  intros Hitem. simpl.
  destruct (decide (dest +:+ it.1 = dest +:+ item.1)) as [Heq|Hne].
  - exists it.2. rewrite Heq, lookup_insert_eq. split; [done|].
    exists it. split; [by left|]. split; [|done].
    clear -Heq. induction dest as [|c dest IHd]; [done|].
    apply IHd. by injection Heq.
  - rewrite lookup_insert_ne by done.
    apply elem_of_cons in Hitem as [->|Hitem]; [done|].
    destruct (IH Hitem) as (e & He & item' & Hin & H1 & H2).
    exists e. split; [done|]. exists item'. split; [by right|done].
Qed.

Lemma subtree_complete dir fs rest e :
  fs !! (dir +:+ rest) = Some e -> String.prefix "/" rest = true ->
  (rest, e) ∈ Fs.subtree dir fs.
Proof.
  intros Hq Hrest. unfold Fs.subtree. apply list_elem_of_omap.
  exists (dir +:+ rest, e). split; [by apply elem_of_map_to_list|].
  simpl. by rewrite below_app, slice_length_app.
Qed.

(** A copy that returns keeps every entry, and the copy of a directory puts
    below the destination an entry of the same kind for each entry below
    the source. *)
Lemma copy_kept src dest fs u fs' :
  Fs.copy src dest fs = Ok (u, fs') ->
  kept fs fs' /\
  (fs !! src = Some Dir ->
   forall rest e, fs !! (src +:+ rest) = Some e -> String.prefix "/" rest = true ->
     fs' !! (dest +:+ rest) = Some e).
Proof.
  unfold Fs.copy. destruct (fs !! src) as [e|] eqn:Hsrc; [|done].
  case_bool_decide; [done|].
  destruct (Fs.overwriteError src dest e (fs !! dest)) eqn:Htop; [done|].
  destruct e as [content|].
  - intros [= _ <-]. split; [|done].
    apply kept_insert. intros e0 He0. by apply (overwriteError_None _ _ _ _ _ Htop).
  - destruct (Fs.below src dest); [done|].
    destruct (Fs.subtreeError src dest fs (Fs.subtree src fs)) eqn:Hbelow; [done|].
    intros [= _ <-]. split.
    + intros q e0 Hq. apply (putSubtree_kept dest _ fs); [| |done].
      * intros item Hitem e1 He1.
        apply (overwriteError_None _ _ _ _ _ (subtreeError_None _ _ _ _ Hbelow item Hitem) He1).
      * apply kept_insert. intros e1 He1.
        by apply (overwriteError_None _ _ _ _ _ Htop).
    + intros _ rest e Hq Hrest.
      pose proof (subtree_complete _ _ _ _ Hq Hrest) as Hin.
      destruct (putSubtree_hit dest _ (<[dest := Dir]> fs) _ Hin)
        as (e' & He' & [rest' e''] & Hin' & H1 & H2).
      simpl in *. subst. rewrite He'. f_equal.
      apply subtree_spec in Hin' as [Hq' _]. congruence.
Qed.

Lemma copies_kept assetsDir files : forall fs u fs',
  forEach (copyAsset assetsDir) files fs = Ok (u, fs') -> kept fs fs'.
Proof.
  induction files as [|g rest IH]; intros fs u fs' Hrun.
  - simpl in Hrun. revert Hrun. run. intros [= _ <-]. apply kept_refl.
  - simpl in Hrun. apply bind_ok in Hrun as (u1 & fs1 & Hcopy & Hrest).
    apply copy_kept in Hcopy as [Hkept _].
    by apply (kept_trans _ fs1); [|apply (IH _ _ _ Hrest)].
Qed.

Lemma copies_bring assetsDir files : forall fs u fs' f rest e,
  forEach (copyAsset assetsDir) files fs = Ok (u, fs') ->
  f ∈ files ->
  fs !! path f = Some Dir ->
  fs !! (path f +:+ rest) = Some e -> String.prefix "/" rest = true ->
  exists e', fs' !! (Path.join [assetsDir; Path.basename (href f)] +:+ rest) = Some e' /\
             sameKind e e'.
Proof.
  induction files as [|g files IH]; intros fs u fs' f rest e Hrun Hf Hdir Hq Hrest.
  - by apply elem_of_nil in Hf.
  - simpl in Hrun. apply bind_ok in Hrun as (u1 & fs1 & Hcopy & Hfiles).
    unfold copyAsset in Hcopy. apply copy_kept in Hcopy as [Hkept Hbrought].
    apply elem_of_cons in Hf as [->|Hf].
    + apply (copies_kept _ _ _ _ _ Hfiles). by apply Hbrought.
    + destruct (Hkept _ _ Hdir) as (d & Hd & Hkd).
      destruct (Hkept _ _ Hq) as (e1 & He1 & Hk1).
      destruct d; [done|].
      destruct (IH _ _ _ f rest e1 Hfiles Hf Hd He1 Hrest) as (e' & He' & Hk').
      exists e'. split; [done|]. by apply (sameKind_trans _ e1).
Qed.

Lemma createCombinedHtml_kept epubData tmpName fs htmlPath fs' :
  createCombinedHtml epubData tmpName fs = Ok (htmlPath, fs') ->
  exists prepared,
    prepareAssets epubData tmpName fs = Ok (tmpName, prepared) /\ kept prepared fs'.
Proof.
  unfold createCombinedHtml. intros Hrun.
  apply bind_ok in Hrun as (tempDir & prepared & Hprepare & Hrun).
  destruct (prepareAssets_frame _ _ _ _ _ Hprepare) as [-> _].
  apply bind_ok in Hrun as (doc & fs2 & Hdoc & Hrun).
  pose proof (combinedDocument_reads epubData prepared prepared ltac:(done)) as Hreads.
  rewrite Hdoc in Hreads. destruct Hreads as [-> _].
  apply bind_ok in Hrun as (u & fs3 & Hwrite & Hrun).
  revert Hrun. run. intros [= _ <-].
  exists prepared. split; [done|].
  unfold Fs.writeFile in Hwrite.
  destruct (prepared !! Path.join [tmpName; "combined.html"]) as [[text|]|] eqn:Hheld;
    try done.
  - assert (fs3 = <[Path.join [tmpName; "combined.html"] := File (cheerio_html doc)]>
                    prepared) as -> by congruence.
    apply kept_insert. intros e0 He0. rewrite Hheld in He0. by injection He0 as <-.
  - assert (fs3 = <[Path.join [tmpName; "combined.html"] := File (cheerio_html doc)]>
                    prepared) as -> by congruence.
    apply kept_insert. intros e0 He0. by rewrite Hheld in He0.
Qed.

(** X21.  A font or image of the package whose path is a directory is copied
    with what it holds: after a successful run, every entry below that path
    has an entry of its kind at the same relative path below
    [assets/<basename of the href>]. *)
Theorem directory_asset_brings_its_entries epubData tmpName fs htmlPath fs' f rest e :
  createCombinedHtml epubData tmpName fs = Ok (htmlPath, fs') ->
  f ∈ fontFiles epubData ++
      filter (fun item => Js.startsWith (mediaType item) "image/") (manifest epubData) ->
  fs !! path f = Some Dir ->
  String.prefix "/" rest = true ->
  fs !! (path f +:+ rest) = Some e ->
  exists e',
    fs' !! (Path.join [Path.join [tmpName; "assets"]; Path.basename (href f)] +:+ rest)
    = Some e' /\
    sameKind e e'.
Proof.
  intros Hrun Hf Hdir Hrest Hq.
  apply createCombinedHtml_kept in Hrun as (prepared & Hprepare & Hwritten).
  unfold prepareAssets in Hprepare.
  apply bind_ok in Hprepare as (t & fs1 & Htmp & Hprepare).
  assert (t = tmpName /\ kept fs fs1) as [-> Hkept1].
  { unfold Fs.tmpDir in Htmp. destruct (fs !! tmpName) eqn:Hfree; [done|].
    injection Htmp as <- <-. split; [done|].
    apply kept_insert. intros e0 He0. congruence. }
  apply bind_ok in Hprepare as (u2 & fs2 & Hmkdir & Hprepare).
  assert (kept fs1 fs2) as Hkept2.
  { unfold Fs.mkdir in Hmkdir.
    destruct (fs1 !! Path.join [tmpName; "assets"]) eqn:Hfree; [done|].
    assert (fs2 = <[Path.join [tmpName; "assets"] := Dir]> fs1) as -> by congruence.
    apply kept_insert. intros e0 He0. congruence. }
  apply bind_ok in Hprepare as (u3 & fs3 & Hfonts & Hprepare).
  apply bind_ok in Hprepare as (u4 & fs4 & Himages & Hprepare).
  revert Hprepare. run. intros [= <-].
  pose proof (kept_trans _ _ _ Hkept1 Hkept2) as Hkept.
  destruct (Hkept _ _ Hdir) as (d & Hd & Hkd). destruct d; [done|].
  destruct (Hkept _ _ Hq) as (e2 & He2 & Hk2).
  assert (exists e4, fs4 !! (Path.join [Path.join [tmpName; "assets"];
                                          Path.basename (href f)] +:+ rest) = Some e4 /\
                     sameKind e2 e4) as (e4 & He4 & Hk4).
  { apply elem_of_app in Hf as [Hf|Hf].
    - destruct (copies_bring _ _ _ _ _ f rest e2 Hfonts Hf Hd He2 Hrest)
        as (e3 & He3 & Hk3).
      destruct (copies_kept _ _ _ _ _ Himages _ _ He3) as (e4 & He4 & Hk4).
      exists e4. split; [done|]. by apply (sameKind_trans _ e3).
    - pose proof (copies_kept _ _ _ _ _ Hfonts) as Hkept3.
      destruct (Hkept3 _ _ Hd) as (d3 & Hd3 & Hkd3). destruct d3; [done|].
      destruct (Hkept3 _ _ He2) as (e3 & He3 & Hk3).
      destruct (copies_bring _ _ _ _ _ f rest e3 Himages Hf Hd3 He3 Hrest)
        as (e4 & He4 & Hk4).
      exists e4. split; [done|]. by apply (sameKind_trans _ e3). }
  destruct (Hwritten _ _ He4) as (e' & He' & Hk').
  exists e'. split; [done|].
  apply (sameKind_trans _ e2); [done|]. by apply (sameKind_trans _ e4).
Qed.

End DirectoryAssets.

Lemma directory_asset_brings_its_entries_witness :
  exists e',
    Demo.afterRun "/tmp/a" Demo.treeFontDirectory
      !! (Path.join [Path.join ["/tmp/a"; "assets"]; Path.basename "fonts/a.ttf"]
          +:+ "/regular.bin")
    = Some e' /\
    sameKind (File "TTF") e'.
Proof.
  apply (directory_asset_brings_its_entries (cheerio := Demo.cheerio) Demo.data
           "/tmp/a" Demo.treeFontDirectory "/tmp/a/combined.html"
           (Demo.afterRun "/tmp/a" Demo.treeFontDirectory)
           {| id := "font"; href := "fonts/a.ttf";
              mediaType := "application/x-font-ttf"; properties := "";
              path := "/book/OEBPS/fonts/a.ttf" |} "/regular.bin" (File "TTF")).
  - evaluated.
  - cbn. left.
  - reflexivity.
  - reflexivity.
  - reflexivity.
Defined.
